(** * redis-distributed-cache: the cache item model, the Redis façade and
      its HTTP handlers

    A shallow embedding of
      - pkg/models: [CacheItem], [NewCacheItem], [IsExpired], [RemainingTTL];
      - internal/cache/redis_cache.go: [Set], [Get], [Delete], [Exists],
        [SetMultiple], [GetMultiple], [DeleteMultiple], [Clear], [Expire] and
        [Size] of [RedisCache];
      - internal/handlers: [SetItem], [GetItem], [SetMultiple] and
        [SetExpiration] of [CacheHandler].

    The Go code is effectful: it reads the wall clock, talks to a Redis
    server, writes log entries and starts goroutines.  All of it is threaded
    through one explicit [World] by a small state monad, so that every
    method reads like its Go source. *)

From Stdlib Require Import ZArith Lia.
From stdpp Require Import gmap strings list fin_maps pretty.

Local Open Scope string_scope.
Local Open Scope Z_scope.

(** ** Package time *)

Module time.

(** [time.Duration] is an [int64] count of nanoseconds. *)
Definition Duration := Z.

(** A [time.Time] is an instant; here the number of nanoseconds since the
    Unix epoch.  Go represents instants over a range of billions of years,
    so no bound is put on it. *)
Definition Time := Z.

Definition Nanosecond : Duration := 1.
Definition Microsecond : Duration := 1000 * Nanosecond.
Definition Millisecond : Duration := 1000 * Microsecond.
Definition Second : Duration := 1000 * Millisecond.
Definition Minute : Duration := 60 * Second.
Definition Hour : Duration := 60 * Minute.

Definition minDuration : Duration := - 2 ^ 63.
Definition maxDuration : Duration := 2 ^ 63 - 1.

(** [t.Add(d)] *)
Definition Add (t : Time) (d : Duration) : Time := t + d.

(** [t.After(u)]: is [t] strictly after [u]? *)
Definition After (t u : Time) : bool := bool_decide (u < t).

(** [t.Sub(u)]: the duration [t - u]; when it does not fit a [Duration]
    the largest (or smallest) duration is returned. *)
Definition Sub (t u : Time) : Duration :=
  if bool_decide (maxDuration < t - u) then maxDuration
  else if bool_decide (t - u < minDuration) then minDuration
  else t - u.

End time.

Abbreviation Time := time.Time.
Abbreviation Duration := time.Duration.

(** ** Values and errors *)

(** The payload of an item, Go's [interface{}].  A payload that arrives in a
    request body has one of the JSON shapes; [VFunc] stands for the Go values
    [encoding/json] refuses to encode (functions, channels, ...). *)
Inductive any : Type :=
| VNull
| VBool (b : bool)
| VNumber (n : Z)
| VString (s : string)
| VArray (elems : list any)
| VObject (fields : list (string * any))
| VFunc.

(** Go's [error] values as this code builds them. *)
Inductive error : Type :=
| redis_Nil                                    (* redis.Nil: the key is absent *)
| redis_error (msg : string)                   (* any other error of the client *)
| json_error (msg : string)                    (* an error of encoding/json *)
| time_error (msg : string)                    (* an error of time.ParseDuration *)
| Errorf (msg : string) (wrapped : option error).
    (* fmt.Errorf(msg + ": %w", err) wraps [Some err];
       fmt.Errorf(msg) without %w wraps nothing *)

(** [errors.Unwrap] *)
Definition Unwrap (e : error) : option error :=
  match e with
  | Errorf _ w => w
  | _ => None
  end.

(** [err == redis.Nil] *)
Definition is_redis_Nil (e : error) : bool :=
  match e with
  | redis_Nil => true
  | _ => false
  end.

(** ** pkg/models *)

Record CacheItem : Type := mkCacheItem {
  Key : string;
  Value : any;
  TTL : Duration;
  CreatedAt : Time;
  ExpiresAt : Time;
}.

(** ** encoding/json, as the façade uses it

    The façade hands a [CacheItem] to [json.Marshal] and stored bytes to
    [json.Unmarshal]; it never looks into the bytes.  The codec is therefore
    an interface: a type of byte strings, the two functions, and the one law
    the façade relies on, that decoding what was encoded gives the item
    back. *)
Class JSON : Type := {
  Bytes : Type;
  Marshal : CacheItem → Bytes + error;
  Unmarshal : Bytes → CacheItem + error;
  Unmarshal_Marshal :
    ∀ ci data, Marshal ci = inl data → Unmarshal data = inl ci;
}.

(** ** The world a method runs in *)

Inductive Level : Type := DebugLevel | InfoLevel | WarnLevel | ErrorLevel.

Section World.
Context `{codec : JSON}.

(** A Redis key holds a value and, when one was set, the instant at which
    the server stops serving it. *)
Record Entry : Type := mkEntry {
  data : Bytes;
  expireAt : option Time;
}.

Record World : Type := mkWorld {
  db : gmap string Entry;          (* the Redis database *)
  clock : Time;                    (* what time.Now() returns *)
  net : list (option string);      (* the fate of the coming round trips to
                                      Redis: [Some msg] fails with [msg];
                                      [None], and an exhausted list, succeed *)
  logs : list (Level * string);    (* what rc.logger has written *)
  detached : list string;          (* keys of the cleanup goroutines
                                      started and not yet run *)
}.

Definition set_db (f : gmap string Entry → gmap string Entry) (w : World) : World :=
  mkWorld (f (db w)) (clock w) (net w) (logs w) (detached w).
Definition set_clock (t : Time) (w : World) : World :=
  mkWorld (db w) t (net w) (logs w) (detached w).
Definition set_net (n : list (option string)) (w : World) : World :=
  mkWorld (db w) (clock w) n (logs w) (detached w).
Definition add_log (l : Level * string) (w : World) : World :=
  mkWorld (db w) (clock w) (net w) (logs w ++ [l]) (detached w).
Definition add_detached (k : string) (w : World) : World :=
  mkWorld (db w) (clock w) (net w) (logs w) (detached w ++ [k]).

(** *** The monad *)

Definition M (A : Type) : Type := World → A * World.

Definition ret {A} (a : A) : M A := λ w, (a, w).
Definition bind {A B} (m : M A) (k : A → M B) : M B :=
  λ w, let (a, w') := m w in k a w'.

End World.

Arguments Entry {codec}.
Arguments World {codec}.
Arguments M {codec} A.

Notation "'let*' x ':=' m 'in' k" := (bind m (λ x, k))
  (at level 10, x pattern, m at level 100, k at level 200).
Notation "m ';;' k" := (bind m (λ _, k))
  (at level 100, k at level 200, right associativity).

Section Model.
Context `{codec : JSON}.

(** [time.Now()].  A method call is taken to run at one instant: reading
    the clock does not advance it, time passes between calls ([Sleep]). *)
Definition time_Now : M Time := λ w, (clock w, w).

(** [time.Sleep(d)] in the caller *)
Definition Sleep (d : Duration) : M unit :=
  λ w, (tt, set_clock (time.Add (clock w) d) w).

(** [time.Until(t)] is [t.Sub(time.Now())] *)
Definition time_Until (t : Time) : M Duration :=
  let* now := time_Now in ret (time.Sub t now).

(** [rc.logger.Debug/Info/Warn/Error(msg, fields...)]; the entry's level
    and message are kept *)
Definition logger (lvl : Level) (msg : string) : M unit :=
  λ w, (tt, add_log (lvl, msg) w).

(** *** The item model *)

Definition NewCacheItem (key : string) (value : any) (ttl : Duration) : M CacheItem :=
  let* now := time_Now in
  ret {| Key := key;
         Value := value;
         TTL := ttl;
         CreatedAt := now;
         ExpiresAt := time.Add now ttl |}.

Definition IsExpired (ci : CacheItem) : M bool :=
  let* now := time_Now in
  ret (time.After now (ExpiresAt ci)).

Definition RemainingTTL (ci : CacheItem) : M Duration :=
  let* expired := IsExpired ci in
  if (expired : bool) then ret 0
  else time_Until (ExpiresAt ci).

End Model.

(** ** The Redis server and its client

    Redis is not part of the repository; what follows is the contract the
    façade assumes of it: SET with a time to live, GET, DEL, EXPIRE, MGET and
    pipelined SETs, on one database shared by all callers.  A key whose
    expiry instant has passed is no longer served.  Durations are honoured to
    the nanosecond and the server shares the façade's clock. *)

Section Redis.
Context `{codec : JSON}.

Definition expired (now : Time) (e : Entry) : bool :=
  match expireAt e with
  | Some t => bool_decide (t < now)
  | None => false
  end.

(** the entry the server serves for [key] at [now] *)
Definition redis_GET (now : Time) (key : string) (d : gmap string Entry) : option Entry :=
  match d !! key with
  | Some e => if expired now e then None else Some e
  | None => None
  end.

(** go-redis: a positive expiration is sent with the SET, [KeepTTL] keeps
    the expiry the key has, any other expiration sets none. *)
Definition KeepTTL : Duration := -1.

(** the expiry instant a SET leaves on [key] *)
Definition SET_expireAt (now : Time) (key : string) (expiration : Duration)
    (d : gmap string Entry) : option Time :=
  if bool_decide (0 < expiration) then Some (time.Add now expiration)
  else if bool_decide (expiration = KeepTTL) then
    match redis_GET now key d with
    | Some e => expireAt e
    | None => None
    end
  else None.

Definition redis_SET (now : Time) (key : string) (value : Bytes) (expiration : Duration)
    (d : gmap string Entry) : gmap string Entry :=
  <[key := mkEntry value (SET_expireAt now key expiration d)]> d.

Definition redis_DEL (keys : list string) (d : gmap string Entry) : gmap string Entry :=
  foldr delete d keys.

(** EXPIRE answers whether the key exists; a non-positive time to live
    deletes the key. *)
Definition redis_EXPIRE (now : Time) (key : string) (expiration : Duration)
    (d : gmap string Entry) : bool * gmap string Entry :=
  match redis_GET now key d with
  | None => (false, d)
  | Some e =>
      (true,
       if bool_decide (0 < expiration)
       then <[key := mkEntry (data e) (Some (time.Add now expiration))]> d
       else delete key d)
  end.

(** An element of an MGET reply, a Go [interface{}]: [nil], a [string], or
    a value of another type (which MGET never sends). *)
Inductive Reply : Type :=
| ReplyNil
| ReplyString (s : Bytes)
| ReplyOther.

Definition redis_MGET (now : Time) (keys : list string) (d : gmap string Entry) : list Reply :=
  map (λ key, match redis_GET now key d with
              | Some e => ReplyString (data e)
              | None => ReplyNil
              end) keys.

(** One round trip to the server: it goes through, or fails with an error
    of the client and leaves the database as it was. *)
Definition roundtrip : M (option error) := λ w,
  (match net w with
   | [] => None
   | fate :: _ => redis_error <$> fate
   end,
   set_net (tail (net w)) w).

Definition modify_db (f : gmap string Entry → gmap string Entry) : M unit :=
  λ w, (tt, set_db f w).

Definition read_db : M (gmap string Entry) := λ w, (db w, w).

(** [rc.client.Set(ctx, key, data, ttl).Err()] *)
Definition client_Set (key : string) (value : Bytes) (expiration : Duration) : M (option error) :=
  let* failure := roundtrip in
  match failure with
  | Some err => ret (Some err)
  | None =>
      let* now := time_Now in
      modify_db (redis_SET now key value expiration) ;;
      ret None
  end.

(** [rc.client.Get(ctx, key).Result()] *)
Definition client_Get (key : string) : M (Bytes + error) :=
  let* failure := roundtrip in
  match failure with
  | Some err => ret (inr err)
  | None =>
      let* now := time_Now in
      let* d := read_db in
      match redis_GET now key d with
      | Some e => ret (inl (data e))
      | None => ret (inr redis_Nil)
      end
  end.

(** [rc.client.Del(ctx, keys...).Err()] *)
Definition client_Del (keys : list string) : M (option error) :=
  let* failure := roundtrip in
  match failure with
  | Some err => ret (Some err)
  | None => modify_db (redis_DEL keys) ;; ret None
  end.

(** [rc.client.Expire(ctx, key, ttl).Result()] *)
Definition client_Expire (key : string) (expiration : Duration) : M (bool + error) :=
  let* failure := roundtrip in
  match failure with
  | Some err => ret (inr err)
  | None =>
      let* now := time_Now in
      let* d := read_db in
      let (success, d') := redis_EXPIRE now key expiration d in
      modify_db (λ _, d') ;;
      ret (inl success)
  end.

(** [rc.client.MGet(ctx, keys...).Result()] *)
Definition client_MGet (keys : list string) : M (list Reply + error) :=
  let* failure := roundtrip in
  match failure with
  | Some err => ret (inr err)
  | None =>
      let* now := time_Now in
      let* d := read_db in
      ret (inl (redis_MGET now keys d))
  end.

(** [rc.client.Pipeline()] is the list of the SET commands queued so far;
    [pipe.Set(ctx, key, data, ttl)] queues one more. *)
Definition pipe_Set (pipe : list (string * Bytes * Duration))
    (key : string) (value : Bytes) (expiration : Duration) : list (string * Bytes * Duration) :=
  pipe ++ [(key, value, expiration)].

Definition run_pipeline (now : Time) (pipe : list (string * Bytes * Duration))
    (d : gmap string Entry) : gmap string Entry :=
  foldl (λ d' '(key, value, expiration), redis_SET now key value expiration d') d pipe.

(** [pipe.Exec(ctx)]: the queued commands are sent in one round trip *)
Definition pipe_Exec (pipe : list (string * Bytes * Duration)) : M (option error) :=
  let* failure := roundtrip in
  match failure with
  | Some err => ret (Some err)
  | None =>
      let* now := time_Now in
      modify_db (run_pipeline now pipe) ;;
      ret None
  end.

End Redis.

Arguments Reply {codec}.

(** ** internal/cache: RedisCache *)

Module RedisCache.
Section Facade.
Context `{codec : JSON}.

(** [func (rc *RedisCache) Set(ctx, key, value, ttl) error] *)
Definition Set_ (key : string) (value : any) (ttl : Duration) : M (option error) :=
  let* cacheItem := NewCacheItem key value ttl in
  match Marshal cacheItem with
  | inr err =>
      logger ErrorLevel "failed to marshal cache item" ;;
      ret (Some (Errorf "failed to marshal cache item" (Some err)))
  | inl data =>
      let* err := client_Set key data ttl in
      match err with
      | Some err =>
          logger ErrorLevel "failed to set cache item" ;;
          ret (Some (Errorf "failed to set cache item" (Some err)))
      | None =>
          logger DebugLevel "cache item set successfully" ;;
          ret None
      end
  end.

(** [func (rc *RedisCache) Delete(ctx, key) error] *)
Definition Delete (key : string) : M (option error) :=
  let* err := client_Del [key] in
  match err with
  | Some err =>
      logger ErrorLevel "failed to delete cache item" ;;
      ret (Some (Errorf "failed to delete cache item" (Some err)))
  | None =>
      logger DebugLevel "cache item deleted successfully" ;;
      ret None
  end.

(** [func (rc *RedisCache) Get(ctx, key)], returning a pointer to the item
    (or nil) and an error *)
Definition Get (key : string) : M (option CacheItem * option error) :=
  let* result := client_Get key in
  match result with
  | inr err =>
      if is_redis_Nil err then ret (None, None)      (* cache miss *)
      else
        logger ErrorLevel "failed to get cache item" ;;
        ret (None, Some (Errorf "failed to get cache item" (Some err)))
  | inl data =>
      match Unmarshal data with
      | inr err =>
          logger ErrorLevel "failed to unmarshal cache item" ;;
          ret (None, Some (Errorf "failed to unmarshal cache item" (Some err)))
      | inl cacheItem =>
          (* check if expired (double check) *)
          let* isExpired := IsExpired cacheItem in
          if (isExpired : bool) then
            logger DebugLevel "cache item expired, removing" ;;
            let* _ := Delete key in                     (* _ = rc.Delete(ctx, key) *)
            ret (None, None)
          else
            logger DebugLevel "cache item retrieved successfully" ;;
            ret (Some cacheItem, None)
      end
  end.

(** The body of the [for key, item := range items] loop of [SetMultiple],
    over the entries of the map in the order the iteration visits them. *)
Fixpoint SetMultiple_loop (entries : list (string * CacheItem))
    (pipe : list (string * Bytes * Duration)) : M (list (string * Bytes * Duration)) :=
  match entries with
  | [] => ret pipe
  | (key, item) :: rest =>
      match Marshal item with
      | inr err =>
          logger ErrorLevel "failed to marshal cache item" ;;
          SetMultiple_loop rest pipe                    (* continue *)
      | inl data =>
          SetMultiple_loop rest (pipe_Set pipe key data (TTL item))
      end
  end.

(** [func (rc *RedisCache) SetMultiple(ctx, items) error] *)
Definition SetMultiple (items : gmap string CacheItem) : M (option error) :=
  let* pipe := SetMultiple_loop (map_to_list items) [] in
  let* err := pipe_Exec pipe in
  match err with
  | Some err =>
      logger ErrorLevel "failed to set multiple cache items" ;;
      ret (Some (Errorf "failed to set multiple cache items" (Some err)))
  | None =>
      logger DebugLevel "multiple cache items set successfully" ;;
      ret None
  end.

(** [go func(key string) { _ = rc.Delete(context.Background(), key) }(key)]:
    the goroutine is started, not waited for. *)
Definition go_Delete (key : string) : M unit :=
  λ w, (tt, add_detached key w).

(** The body of the [for i, result := range results] loop of
    [GetMultiple]; [keys[i]] comes paired with [results[i]]. *)
Fixpoint GetMultiple_loop (results : list (string * Reply))
    (items : gmap string CacheItem) : M (gmap string CacheItem) :=
  match results with
  | [] => ret items
  | (key, result) :: rest =>
      match result with
      | ReplyNil => GetMultiple_loop rest items         (* cache miss *)
      | ReplyOther =>
          logger WarnLevel "unexpected data type in cache" ;;
          GetMultiple_loop rest items
      | ReplyString data =>
          match Unmarshal data with
          | inr err =>
              logger ErrorLevel "failed to unmarshal cache item" ;;
              GetMultiple_loop rest items
          | inl cacheItem =>
              let* isExpired := IsExpired cacheItem in
              if (isExpired : bool) then
                (* clean up expired items asynchronously *)
                go_Delete key ;;
                GetMultiple_loop rest items
              else
                GetMultiple_loop rest (<[key := cacheItem]> items)
          end
      end
  end.

(** [func (rc *RedisCache) GetMultiple(ctx, keys)], returning the map of
    the items found (or nil) and an error.
    MGET answers one element per key, so [keys[i]] exists for every
    [results[i]]. *)
Definition GetMultiple (keys : list string) : M (option (gmap string CacheItem) * option error) :=
  if bool_decide (length keys = 0%nat) then ret (Some ∅, None)
  else
    let* results := client_MGet keys in
    match results with
    | inr err =>
        logger ErrorLevel "failed to get multiple cache items" ;;
        ret (None, Some (Errorf "failed to get multiple cache items" (Some err)))
    | inl results =>
        let* items := GetMultiple_loop (zip keys results) ∅ in
        logger DebugLevel "multiple cache items retrieved" ;;
        ret (Some items, None)
    end.

(** [func (rc *RedisCache) Expire(ctx, key, ttl) error] *)
Definition Expire (key : string) (ttl : Duration) : M (option error) :=
  let* result := client_Expire key ttl in
  match result with
  | inr err =>
      logger ErrorLevel "failed to set expiration" ;;
      ret (Some (Errorf "failed to set expiration" (Some err)))
  | inl success =>
      if negb success then
        ret (Some (Errorf ("key does not exist: " +:+ key) None))
      else
        logger DebugLevel "expiration set successfully" ;;
        ret None
  end.


End Facade.
End RedisCache.

(** ** internal/handlers: CacheHandler

    Of gin only what the two store handlers use: the [:key] path parameter,
    the outcome of [c.ShouldBindJSON(&request)] ([None] when the body is
    rejected) and the [c.JSON(status, gin.H{...})] answer. *)

Module CacheHandler.

Definition StatusOK : Z := 200.
Definition StatusBadRequest : Z := 400.
Definition StatusInternalServerError : Z := 500.

(** [gin.H{"error": msg}], [gin.H{"message": msg}] and
    [gin.H{"message": msg, "count": n}] *)
Inductive H : Type :=
| H_error (msg : string)
| H_message (msg : string)
| H_message_count (msg : string) (count : nat).

Record Response : Type := JSON_response {
  status : Z;
  body : H;
}.

(** The request structs of both handlers:
    [Value interface{} `json:"value"`] and [TTL string `json:"ttl,omitempty"`];
    a body without a "ttl" field leaves [TTL] the empty string. *)
Record ItemRequest : Type := mkItemRequest {
  request_Value : any;
  request_TTL : string;
}.

Section Handlers.
Context `{codec : JSON}.

(** [time.ParseDuration], from Go's library *)
Variable ParseDuration : string → Duration + error.

(** The TTL block both handlers share,
    [ttl := 1 * time.Hour], then, when [request.TTL] is not the empty string,
    [parsedTTL, err := time.ParseDuration(request.TTL); ...; ttl = parsedTTL];
    the error is the one that makes the handler answer 400. *)
Definition parse_TTL (request_ttl : string) : Duration + error :=
  let ttl := 1 * time.Hour in
  if bool_decide (request_ttl ≠ EmptyString) then
    match ParseDuration request_ttl with
    | inr err => inr err
    | inl parsedTTL => inl parsedTTL
    end
  else inl ttl.

(** [func (h *CacheHandler) SetItem(c *gin.Context)], PUT /cache/:key *)
Definition SetItem (key : string) (bound : option ItemRequest) : M Response :=
  if bool_decide (key = EmptyString) then
    ret (JSON_response StatusBadRequest (H_error "key is required"))
  else
    match bound with
    | None =>
        logger WarnLevel "invalid request body" ;;
        ret (JSON_response StatusBadRequest (H_error "invalid request body"))
    | Some request =>
        (* parse TTL (default 1 hour) *)
        match parse_TTL (request_TTL request) with
        | inr _ =>
            ret (JSON_response StatusBadRequest (H_error "invalid TTL format"))
        | inl ttl =>
            let* err := RedisCache.Set_ key (request_Value request) ttl in
            match err with
            | Some _ =>
                logger ErrorLevel "failed to set cache item" ;;
                ret (JSON_response StatusInternalServerError (H_error "failed to set cache item"))
            | None =>
                logger DebugLevel "cache item set via API" ;;
                ret (JSON_response StatusOK (H_message "item stored successfully"))
            end
        end
    end.

(** The [for key, item := range request.Items] loop of [SetMultiple]:
    the items built, or the key whose TTL does not parse. *)
Fixpoint SetMultiple_items (entries : list (string * ItemRequest))
    (items : gmap string CacheItem) : M (gmap string CacheItem + string) :=
  match entries with
  | [] => ret (inl items)
  | (key, item) :: rest =>
      match parse_TTL (request_TTL item) with
      | inr _ => ret (inr key)
      | inl ttl =>
          let* cacheItem := NewCacheItem key (request_Value item) ttl in
          SetMultiple_items rest (<[key := cacheItem]> items)
      end
  end.

(** [func (h *CacheHandler) SetMultiple(c *gin.Context)], POST /cache/batch *)
Definition SetMultiple (bound : option (gmap string ItemRequest)) : M Response :=
  match bound with
  | None =>
      logger WarnLevel "invalid request body" ;;
      ret (JSON_response StatusBadRequest (H_error "invalid request body"))
  | Some request_Items =>
      let* items := SetMultiple_items (map_to_list request_Items) ∅ in
      match items with
      | inr key =>
          ret (JSON_response StatusBadRequest (H_error ("invalid TTL format for key: " +:+ key)))
      | inl items =>
          let* err := RedisCache.SetMultiple items in
          match err with
          | Some _ =>
              logger ErrorLevel "failed to set multiple cache items" ;;
              ret (JSON_response StatusInternalServerError (H_error "failed to set multiple items"))
          | None =>
              logger DebugLevel "multiple cache items set via API" ;;
              ret (JSON_response StatusOK (H_message_count "items stored successfully" (size items)))
          end
      end
  end.

End Handlers.
End CacheHandler.

(** ** More commands of the Redis client: EXISTS, FLUSHDB, DBSIZE *)

Section RedisCommands.
Context `{codec : JSON}.

(** EXISTS answers how many of the named keys exist. *)
Definition redis_EXISTS (now : Time) (keys : list string) (d : gmap string Entry) : Z :=
  Z.of_nat (length (filter (λ key, is_Some (redis_GET now key d)) keys)).

(** DBSIZE: the number of keys the server holds.  The server of the model
    drops a key only when it is deleted or overwritten. *)
Definition redis_DBSIZE (d : gmap string Entry) : Z := Z.of_nat (size d).

(** [rc.client.Exists(ctx, key).Result()] *)
Definition client_Exists (keys : list string) : M (Z + error) :=
  let* failure := roundtrip in
  match failure with
  | Some err => ret (inr err)
  | None =>
      let* now := time_Now in
      let* d := read_db in
      ret (inl (redis_EXISTS now keys d))
  end.

(** [rc.client.FlushDB(ctx).Err()] *)
Definition client_FlushDB : M (option error) :=
  let* failure := roundtrip in
  match failure with
  | Some err => ret (Some err)
  | None => modify_db (λ _, ∅) ;; ret None
  end.

(** [rc.client.DBSize(ctx).Result()] *)
Definition client_DBSize : M (Z + error) :=
  let* failure := roundtrip in
  match failure with
  | Some err => ret (inr err)
  | None =>
      let* d := read_db in
      ret (inl (redis_DBSIZE d))
  end.

End RedisCommands.

(** ** internal/cache: [Exists], [DeleteMultiple], [Clear] and [Size] of RedisCache *)

Module cache.
Section Facade.
Context `{codec : JSON}.

(** [func (rc *RedisCache) Exists(ctx, key) (bool, error)] *)
Definition Exists (key : string) : M (bool * option error) :=
  let* result := client_Exists [key] in
  match result with
  | inr err =>
      logger ErrorLevel "failed to check cache item existence" ;;
      ret (false, Some (Errorf "failed to check cache item existence" (Some err)))
  | inl count => ret (bool_decide (0 < count), None)
  end.

(** [func (rc *RedisCache) DeleteMultiple(ctx, keys) error] *)
Definition DeleteMultiple (keys : list string) : M (option error) :=
  if bool_decide (length keys = 0%nat) then ret None
  else
    let* err := client_Del keys in
    match err with
    | Some err =>
        logger ErrorLevel "failed to delete multiple cache items" ;;
        ret (Some (Errorf "failed to delete multiple cache items" (Some err)))
    | None =>
        logger DebugLevel "multiple cache items deleted successfully" ;;
        ret None
    end.

(** [func (rc *RedisCache) Clear(ctx) error] *)
Definition Clear : M (option error) :=
  let* err := client_FlushDB in
  match err with
  | Some err =>
      logger ErrorLevel "failed to clear cache" ;;
      ret (Some (Errorf "failed to clear cache" (Some err)))
  | None =>
      logger InfoLevel "cache cleared successfully" ;;
      ret None
  end.

(** [func (rc *RedisCache) Size(ctx) (int64, error)] *)
Definition Size : M (Z * option error) :=
  let* result := client_DBSize in
  match result with
  | inr err =>
      logger ErrorLevel "failed to get cache size" ;;
      ret (0, Some (Errorf "failed to get cache size" (Some err)))
  | inl size => ret (size, None)
  end.

End Facade.
End cache.

(** ** internal/handlers: [GetItem] and [SetExpiration] of CacheHandler

    As for the two store handlers: the [:key] path parameter, the outcome of
    [c.ShouldBindJSON(&request)] and the answer [c.JSON(status, gin.H{...})]. *)

Module handlers.

Definition StatusOK : Z := 200.
Definition StatusBadRequest : Z := 400.
Definition StatusNotFound : Z := 404.
Definition StatusInternalServerError : Z := 500.

(** The bodies the two handlers answer, one constructor for each shape of
    [gin.H] they build. *)
Inductive Body : Type :=
| H_error (msg : string)
| H_message (msg : string)
| H_item (key : string) (value : any) (created_at expires_at : Time) (remaining_ttl : string).

Record Answer : Type := mkAnswer {
  status : Z;
  body : Body;
}.

Section Handlers.
Context `{codec : JSON}.

(** From Go's library: [time.ParseDuration] and [time.Duration.String]. *)
Variable ParseDuration : string → Duration + error.
Variable Duration_String : Duration → string.

(** [func (h *CacheHandler) GetItem(c *gin.Context)], GET /cache/:key *)
Definition GetItem (key : string) : M Answer :=
  if bool_decide (key = EmptyString) then
    ret (mkAnswer StatusBadRequest (H_error "key is required"))
  else
    let* (item, err) := RedisCache.Get key in
    match err with
    | Some _ =>
        logger ErrorLevel "failed to get cache item" ;;
        ret (mkAnswer StatusInternalServerError (H_error "failed to get cache item"))
    | None =>
        match item with
        | None => ret (mkAnswer StatusNotFound (H_error "key not found"))
        | Some item =>
            let* remaining := RemainingTTL item in
            ret (mkAnswer StatusOK
                   (H_item (Key item) (Value item) (CreatedAt item) (ExpiresAt item)
                      (Duration_String remaining)))
        end
    end.

(** [func (h *CacheHandler) SetExpiration(c *gin.Context)], PUT /cache/:key/expire;
    the request is [TTL string `json:"ttl"`]. *)
Definition SetExpiration (key : string) (bound : option string) : M Answer :=
  if bool_decide (key = EmptyString) then
    ret (mkAnswer StatusBadRequest (H_error "key is required"))
  else
    match bound with
    | None =>
        logger WarnLevel "invalid request body" ;;
        ret (mkAnswer StatusBadRequest (H_error "invalid request body"))
    | Some request_TTL =>
        match ParseDuration request_TTL with
        | inr _ => ret (mkAnswer StatusBadRequest (H_error "invalid TTL format"))
        | inl ttl =>
            let* err := RedisCache.Expire key ttl in
            match err with
            | Some _ =>
                logger ErrorLevel "failed to set expiration" ;;
                ret (mkAnswer StatusInternalServerError (H_error "failed to set expiration"))
            | None =>
                logger DebugLevel "expiration set via API" ;;
                ret (mkAnswer StatusOK (H_message "expiration set successfully"))
            end
        end
    end.

End Handlers.
End handlers.

(** ** Vocabulary of the statements *)

(** The coming [n] round trips to Redis go through. *)
Fixpoint reachable (n : nat) (fates : list (option string)) : bool :=
  match n, fates with
  | O, _ => true
  | S _, [] => true
  | S n', fate :: rest =>
      match fate with
      | None => reachable n' rest
      | Some _ => false
      end
  end.

(** The world once a round trip has been made. *)
Definition sent `{codec : JSON} (w : World) : World := set_net (tail (net w)) w.

(** What a read path makes of the bytes found under a key at [now]: the
    item they decode to, unless it is expired. *)
Definition fresh_item `{codec : JSON} (now : Time) (value : Bytes) : option CacheItem :=
  match Unmarshal value with
  | inl ci => if time.After now (ExpiresAt ci) then None else Some ci
  | inr _ => None
  end.

(** What a read at [now] finds for [key] in the database [d]. *)
Definition served `{codec : JSON} (now : Time) (d : gmap string Entry) (key : string)
    : option CacheItem :=
  match redis_GET now key d with
  | Some e => fresh_item now (data e)
  | None => None
  end.

(** The commands [SetMultiple] queues for the entries of its map: one SET
    for every item that serializes. *)
Definition queued `{codec : JSON} (entries : list (string * CacheItem))
    : list (string * Bytes * Duration) :=
  omap (λ '(key, item),
          match Marshal item with
          | inl value => Some (key, value, TTL item)
          | inr _ => None
          end) entries.

(** The item the bytes under [key] decode to. *)
Definition stored_item `{codec : JSON} (w : World) (key : string) : option CacheItem :=
  match db w !! key with
  | Some e =>
      match Unmarshal (data e) with
      | inl ci => Some ci
      | inr _ => None
      end
  | None => None
  end.

(** The bytes under [key] are served at [now] and decode to an item that is
    expired at [now]. *)
Definition stale `{codec : JSON} (now : Time) (d : gmap string Entry) (key : string) : bool :=
  match redis_GET now key d with
  | Some e =>
      match Unmarshal (data e) with
      | inl ci => time.After now (ExpiresAt ci)
      | inr _ => false
      end
  | None => false
  end.

(** ** A reference codec

    One instance of the [JSON] interface, for running the model on concrete
    requests: byte strings are told apart only by what [json.Unmarshal]
    makes of them. *)

Inductive document : Type :=
| encoded (ci : CacheItem)          (* the text json.Marshal gives for [ci] *)
| garbled (raw : string).           (* bytes json.Unmarshal rejects *)

Fixpoint encodable (v : any) : bool :=
  match v with
  | VArray elems => forallb encodable elems
  | VObject fields => forallb (λ field, encodable field.2) fields
  | VFunc => false
  | _ => true
  end.

Definition reference_Marshal (ci : CacheItem) : document + error :=
  if encodable (Value ci) then inl (encoded ci)
  else inr (json_error "json: unsupported type").

Definition reference_Unmarshal (value : document) : CacheItem + error :=
  match value with
  | encoded ci => inl ci
  | garbled _ => inr (json_error "invalid character")
  end.

Lemma reference_Unmarshal_Marshal ci value :
  reference_Marshal ci = inl value → reference_Unmarshal value = inl ci.
Proof.
  unfold reference_Marshal. destruct (encodable (Value ci)); [|discriminate].
  intros [= <-]. reflexivity.
Qed.

Definition reference_codec : JSON :=
  {| Bytes := document;
     Marshal := reference_Marshal;
     Unmarshal := reference_Unmarshal;
     Unmarshal_Marshal := reference_Unmarshal_Marshal |}.

(** A parser for a few duration strings of the README and the tests. *)
Definition sample_ParseDuration (s : string) : Duration + error :=
  if bool_decide (s = "1h") then inl time.Hour
  else if bool_decide (s = "30m") then inl (30 * time.Minute)
  else if bool_decide (s = "100ms") then inl (100 * time.Millisecond)
  else inr (time_error "time: invalid duration").

(** An empty database at instant [now], with the given fates of the round
    trips. *)
Definition fresh_world `{codec : JSON} (now : Time) (fates : list (option string)) : World :=
  mkWorld ∅ now fates [] [].

(** * Properties *)

Section Claims.
Context `{codec : JSON}.

(** ** Round trips *)

Lemma roundtrip_sent n (w : World) :
  reachable (S n) (net w) = true →
  roundtrip w = (None, sent w) ∧ reachable n (net (sent w)) = true.
Proof.
  unfold roundtrip, sent. destruct (net w) as [|[msg|] rest]; simpl; try done.
  intros _. split; [done|]. by destruct n.
Qed.

Lemma roundtrip_fails msg rest (w : World) :
  net w = Some msg :: rest →
  roundtrip w = (Some (redis_error msg), set_net rest w).
Proof. unfold roundtrip. by intros ->. Qed.

(** ** The client, when the round trip goes through and when it fails *)

Lemma client_Get_ok n key (w : World) :
  reachable (S n) (net w) = true →
  client_Get key w =
    (match redis_GET (clock w) key (db w) with
     | Some e => inl (data e)
     | None => inr redis_Nil
     end, sent w).
Proof.
  intros [Hrt _]%roundtrip_sent. unfold client_Get, bind. rewrite Hrt. simpl.
  by destruct (redis_GET _ _ _).
Qed.

Lemma client_Get_fails key msg rest (w : World) :
  net w = Some msg :: rest →
  client_Get key w = (inr (redis_error msg), set_net rest w).
Proof.
  intros Hrt%roundtrip_fails. unfold client_Get, bind. by rewrite Hrt.
Qed.

Lemma client_Set_ok n key value ttl (w : World) :
  reachable (S n) (net w) = true →
  client_Set key value ttl w =
    (None, set_db (redis_SET (clock w) key value ttl) (sent w)).
Proof.
  intros [Hrt _]%roundtrip_sent. unfold client_Set, bind. by rewrite Hrt.
Qed.

Lemma client_Set_fails key value ttl msg rest (w : World) :
  net w = Some msg :: rest →
  client_Set key value ttl w = (Some (redis_error msg), set_net rest w).
Proof.
  intros Hrt%roundtrip_fails. unfold client_Set, bind. by rewrite Hrt.
Qed.

Lemma client_Del_ok n keys (w : World) :
  reachable (S n) (net w) = true →
  client_Del keys w = (None, set_db (redis_DEL keys) (sent w)).
Proof.
  intros [Hrt _]%roundtrip_sent. unfold client_Del, bind. by rewrite Hrt.
Qed.

Lemma client_Del_fails keys msg rest (w : World) :
  net w = Some msg :: rest →
  client_Del keys w = (Some (redis_error msg), set_net rest w).
Proof.
  intros Hrt%roundtrip_fails. unfold client_Del, bind. by rewrite Hrt.
Qed.

Lemma client_Expire_ok n key ttl (w : World) :
  reachable (S n) (net w) = true →
  client_Expire key ttl w =
    (inl (redis_EXPIRE (clock w) key ttl (db w)).1,
     set_db (λ _, (redis_EXPIRE (clock w) key ttl (db w)).2) (sent w)).
Proof.
  intros [Hrt _]%roundtrip_sent. unfold client_Expire, bind. rewrite Hrt. simpl.
  by destruct (redis_EXPIRE _ _ _ _).
Qed.

Lemma client_Expire_fails key ttl msg rest (w : World) :
  net w = Some msg :: rest →
  client_Expire key ttl w = (inr (redis_error msg), set_net rest w).
Proof.
  intros Hrt%roundtrip_fails. unfold client_Expire, bind. by rewrite Hrt.
Qed.

Lemma client_MGet_ok n keys (w : World) :
  reachable (S n) (net w) = true →
  client_MGet keys w = (inl (redis_MGET (clock w) keys (db w)), sent w).
Proof.
  intros [Hrt _]%roundtrip_sent. unfold client_MGet, bind. by rewrite Hrt.
Qed.

Lemma client_MGet_fails keys msg rest (w : World) :
  net w = Some msg :: rest →
  client_MGet keys w = (inr (redis_error msg), set_net rest w).
Proof.
  intros Hrt%roundtrip_fails. unfold client_MGet, bind. by rewrite Hrt.
Qed.

Lemma pipe_Exec_ok n pipe (w : World) :
  reachable (S n) (net w) = true →
  pipe_Exec pipe w = (None, set_db (run_pipeline (clock w) pipe) (sent w)).
Proof.
  intros [Hrt _]%roundtrip_sent. unfold pipe_Exec, bind. by rewrite Hrt.
Qed.

Lemma pipe_Exec_fails pipe msg rest (w : World) :
  net w = Some msg :: rest →
  pipe_Exec pipe w = (Some (redis_error msg), set_net rest w).
Proof.
  intros Hrt%roundtrip_fails. unfold pipe_Exec, bind. by rewrite Hrt.
Qed.

(** ** Delete *)

Lemma Delete_ok n key (w : World) :
  reachable (S n) (net w) = true →
  RedisCache.Delete key w =
    (None, add_log (DebugLevel, "cache item deleted successfully")
             (set_db (delete key) (sent w))).
Proof.
  intros H. unfold RedisCache.Delete, bind. by rewrite (client_Del_ok n).
Qed.

Lemma Delete_fails key msg rest (w : World) :
  net w = Some msg :: rest →
  RedisCache.Delete key w =
    (Some (Errorf "failed to delete cache item" (Some (redis_error msg))),
     add_log (ErrorLevel, "failed to delete cache item") (set_net rest w)).
Proof.
  intros H. unfold RedisCache.Delete, bind. by rewrite (client_Del_fails _ msg rest).
Qed.

(** ** The item model *)

Lemma IsExpired_eq ci (w : World) :
  IsExpired ci w = (time.After (clock w) (ExpiresAt ci), w).
Proof. reflexivity. Qed.

Lemma NewCacheItem_eq key value ttl (w : World) :
  NewCacheItem key value ttl w =
    (mkCacheItem key value ttl (clock w) (time.Add (clock w) ttl), w).
Proof. reflexivity. Qed.

Lemma Sub_exact (t u : Time) :
  time.minDuration ≤ t - u ≤ time.maxDuration → time.Sub t u = t - u.
Proof.
  intros [Hlo Hhi]. unfold time.Sub.
  rewrite !bool_decide_eq_false_2 by lia. reflexivity.
Qed.

Lemma Sub_sign (t u : Time) : (u ≤ t → 0 ≤ time.Sub t u) ∧ (t < u → time.Sub t u < 0).
Proof.
  unfold time.Sub, time.maxDuration, time.minDuration.
  repeat case_bool_decide; lia.
Qed.

(** C9: at every instant [now], [RemainingTTL] of an item is
    [max(0, expiresAt - now)], the difference being the duration [Sub] gives
    for it (the difference itself whenever that is a [Duration]): [0] when
    the item is expired, the difference otherwise, and never negative.  The
    call does not change the world. *)
Theorem RemainingTTL_is_max_0_until (ci : CacheItem) (w : World) :
  let now := clock w in
  let remaining := (RemainingTTL ci w).1 in
  remaining = Z.max 0 (time.Sub (ExpiresAt ci) now)
  ∧ ((IsExpired ci w).1 = true → remaining = 0)
  ∧ ((IsExpired ci w).1 = false → remaining = time.Sub (ExpiresAt ci) now)
  ∧ 0 ≤ remaining
  ∧ (ExpiresAt ci - now ≤ time.maxDuration →
       remaining = Z.max 0 (ExpiresAt ci - now))
  ∧ (RemainingTTL ci w).2 = w.
Proof.
  intros now remaining. subst now remaining.
  unfold RemainingTTL, bind. rewrite IsExpired_eq. simpl.
  unfold time.After.
  pose proof (Sub_sign (ExpiresAt ci) (clock w)) as [Hpos Hneg].
  case_bool_decide as Hexp; simpl.
  - specialize (Hneg Hexp). repeat split; try done; lia.
  - assert (clock w ≤ ExpiresAt ci) as Hle by lia. specialize (Hpos Hle).
    repeat split; try done; try lia.
    intros Hfit. rewrite Sub_exact; [lia|].
    unfold time.minDuration. lia.
Qed.

(** ** Set and Get *)

Lemma Set_ok n key value ttl data (w : World) :
  Marshal (NewCacheItem key value ttl w).1 = inl data →
  reachable (S n) (net w) = true →
  RedisCache.Set_ key value ttl w =
    (None, add_log (DebugLevel, "cache item set successfully")
             (set_db (redis_SET (clock w) key data ttl) (sent w))).
Proof.
  intros Hm Hnet. unfold RedisCache.Set_, bind.
  rewrite NewCacheItem_eq in *. simpl in Hm. rewrite Hm.
  by rewrite (client_Set_ok n).
Qed.

Lemma Get_absent n key (w : World) :
  reachable (S n) (net w) = true →
  redis_GET (clock w) key (db w) = None →
  RedisCache.Get key w = ((None, None), sent w).
Proof.
  intros Hnet Habs. unfold RedisCache.Get, bind.
  rewrite (client_Get_ok n) by done. by rewrite Habs.
Qed.

Lemma Get_fresh n key e item (w : World) :
  reachable (S n) (net w) = true →
  redis_GET (clock w) key (db w) = Some e →
  Unmarshal (data e) = inl item →
  time.After (clock w) (ExpiresAt item) = false →
  RedisCache.Get key w =
    ((Some item, None),
     add_log (DebugLevel, "cache item retrieved successfully") (sent w)).
Proof.
  intros Hnet Hget Hdec Hfresh. unfold RedisCache.Get, bind.
  rewrite (client_Get_ok n) by done. rewrite Hget, Hdec, IsExpired_eq.
  simpl. by rewrite Hfresh.
Qed.

Lemma Get_expired n key e item (w : World) :
  reachable (S n) (net w) = true →
  redis_GET (clock w) key (db w) = Some e →
  Unmarshal (data e) = inl item →
  time.After (clock w) (ExpiresAt item) = true →
  RedisCache.Get key w =
    ((None, None),
     (RedisCache.Delete key
        (add_log (DebugLevel, "cache item expired, removing") (sent w))).2).
Proof.
  intros Hnet Hget Hdec Hexp. unfold RedisCache.Get, bind.
  rewrite (client_Get_ok n) by done. rewrite Hget, Hdec, IsExpired_eq.
  simpl. rewrite Hexp. unfold logger. simpl.
  by destruct (RedisCache.Delete _ _).
Qed.



(** C3: when the bytes stored under a key decode to an item that is expired
    at read time, [Get] runs [Delete] on that key and answers "no item"
    with no error, whatever [Delete] returns: when the delete goes through
    the key is gone, when it fails its error is only logged. *)
Theorem Get_expired_item_lazy_delete key e item (w : World) :
  reachable 1 (net w) = true →
  redis_GET (clock w) key (db w) = Some e →
  Unmarshal (data e) = inl item →
  (IsExpired item w).1 = true →
  let w0 := add_log (DebugLevel, "cache item expired, removing") (sent w) in
  RedisCache.Get key w = ((None, None), (RedisCache.Delete key w0).2)
  ∧ (reachable 1 (net w0) = true →
       (RedisCache.Delete key w0).1 = None
       ∧ db (RedisCache.Get key w).2 = delete key (db w))
  ∧ (∀ msg rest, net w0 = Some msg :: rest →
       (RedisCache.Delete key w0).1 =
         Some (Errorf "failed to delete cache item" (Some (redis_error msg)))
       ∧ db (RedisCache.Get key w).2 = db w
       ∧ (RedisCache.Get key w).1 = (None, None)).
Proof.
  intros Hnet Hget Hdec Hexp w0. rewrite IsExpired_eq in Hexp. simpl in Hexp.
  pose proof (Get_expired 0 key e item w Hnet Hget Hdec Hexp) as HGet.
  fold w0 in HGet. rewrite HGet. split; [done|]. split.
  - intros Hnet0. by rewrite (Delete_ok 0).
  - intros msg rest Hnet0. by rewrite (Delete_fails _ msg rest).
Qed.

Lemma Get_fails key msg rest (w : World) :
  net w = Some msg :: rest →
  RedisCache.Get key w =
    ((None, Some (Errorf "failed to get cache item" (Some (redis_error msg)))),
     add_log (ErrorLevel, "failed to get cache item") (set_net rest w)).
Proof.
  intros Hnet. unfold RedisCache.Get, bind.
  by rewrite (client_Get_fails _ msg rest).
Qed.

Lemma Get_corrupt n key e err (w : World) :
  reachable (S n) (net w) = true →
  redis_GET (clock w) key (db w) = Some e →
  Unmarshal (data e) = inr err →
  RedisCache.Get key w =
    ((None, Some (Errorf "failed to unmarshal cache item" (Some err))),
     add_log (ErrorLevel, "failed to unmarshal cache item") (sent w)).
Proof.
  intros Hnet Hget Hdec. unfold RedisCache.Get, bind.
  rewrite (client_Get_ok n) by done. by rewrite Hget, Hdec.
Qed.

(** C6: a [Get] of a key that the store does not hold answers "no item"
    with no error and touches nothing; so does a [Get] that finds an expired
    item.  A miss is the pair (nil, nil), never an error.  The errors of
    [Get], bytes that do not decode and a round trip that fails, come with an
    error value, so a miss is told apart from each of them. *)
Theorem Get_miss_is_not_an_error key (w : World) :
  (reachable 1 (net w) = true →
     (redis_GET (clock w) key (db w) = None →
        RedisCache.Get key w = ((None, None), sent w))
     ∧ (∀ e item,
          redis_GET (clock w) key (db w) = Some e →
          Unmarshal (data e) = inl item →
          (IsExpired item w).1 = true →
          (RedisCache.Get key w).1 = (None, None))
     ∧ (∀ e err,
          redis_GET (clock w) key (db w) = Some e →
          Unmarshal (data e) = inr err →
          (RedisCache.Get key w).1 =
            (None, Some (Errorf "failed to unmarshal cache item" (Some err)))))
  ∧ (∀ msg rest, net w = Some msg :: rest →
       (RedisCache.Get key w).1 =
         (None, Some (Errorf "failed to get cache item" (Some (redis_error msg))))).
Proof.
  split.
  - intros Hnet. repeat split.
    + by apply (Get_absent 0).
    + intros e item Hget Hdec Hexp. rewrite IsExpired_eq in Hexp.
      by rewrite (Get_expired 0 key e item).
    + intros e err Hget Hdec. by rewrite (Get_corrupt 0 key e err).
  - intros msg rest Hnet. by rewrite (Get_fails key msg rest).
Qed.

(** ** Expire *)

Lemma Expire_absent n key ttl (w : World) :
  reachable (S n) (net w) = true →
  redis_GET (clock w) key (db w) = None →
  RedisCache.Expire key ttl w =
    (Some (Errorf ("key does not exist: " +:+ key) None),
     set_db (λ _, db w) (sent w)).
Proof.
  intros Hnet Habs. unfold RedisCache.Expire, bind.
  rewrite (client_Expire_ok n) by done. unfold redis_EXPIRE. by rewrite Habs.
Qed.

Lemma Expire_present n key ttl e (w : World) :
  reachable (S n) (net w) = true →
  redis_GET (clock w) key (db w) = Some e →
  RedisCache.Expire key ttl w =
    (None,
     add_log (DebugLevel, "expiration set successfully")
       (set_db (λ _, if bool_decide (0 < ttl)
                     then <[key := mkEntry (data e) (Some (time.Add (clock w) ttl))]> (db w)
                     else delete key (db w)) (sent w))).
Proof.
  intros Hnet Hget. unfold RedisCache.Expire, bind.
  rewrite (client_Expire_ok n) by done. unfold redis_EXPIRE. by rewrite Hget.
Qed.

Lemma Expire_fails key ttl msg rest (w : World) :
  net w = Some msg :: rest →
  RedisCache.Expire key ttl w =
    (Some (Errorf "failed to set expiration" (Some (redis_error msg))),
     add_log (ErrorLevel, "failed to set expiration") (set_net rest w)).
Proof.
  intros Hnet. unfold RedisCache.Expire, bind.
  by rewrite (client_Expire_fails _ _ msg rest).
Qed.

(** C7: [Expire] of a key the store does not hold fails with the error
    "key does not exist: <key>", which wraps nothing; [Expire] of a key the
    store holds succeeds; and the error of a failed round trip is another
    one, "failed to set expiration" wrapping the client's error. *)
Theorem Expire_missing_key_is_not_found key ttl (w : World) :
  (reachable 1 (net w) = true →
   redis_GET (clock w) key (db w) = None →
     (RedisCache.Expire key ttl w).1 =
       Some (Errorf ("key does not exist: " +:+ key) None)
     ∧ db (RedisCache.Expire key ttl w).2 = db w)
  ∧ (reachable 1 (net w) = true →
     is_Some (redis_GET (clock w) key (db w)) →
       (RedisCache.Expire key ttl w).1 = None)
  ∧ (∀ msg rest, net w = Some msg :: rest →
       (RedisCache.Expire key ttl w).1 =
         Some (Errorf "failed to set expiration" (Some (redis_error msg))))
  ∧ (∀ msg,
       Errorf ("key does not exist: " +:+ key) None
         ≠ Errorf "failed to set expiration" (Some (redis_error msg))
       ∧ Unwrap (Errorf ("key does not exist: " +:+ key) None) = None
       ∧ Unwrap (Errorf "failed to set expiration" (Some (redis_error msg)))
           = Some (redis_error msg)).
Proof.
  repeat split.
  - by rewrite (Expire_absent 0).
  - by rewrite (Expire_absent 0).
  - intros Hnet [e He]. by rewrite (Expire_present 0 key ttl e).
  - intros msg rest Hnet. by rewrite (Expire_fails _ _ msg rest).
  - discriminate.
Qed.

Lemma redis_GET_expiry now key value at_ (d : gmap string Entry) :
  redis_GET now key (<[key := mkEntry value (Some at_)]> d) =
    if bool_decide (at_ < now) then None else Some (mkEntry value (Some at_)).
Proof. unfold redis_GET, expired. by rewrite lookup_insert_eq. Qed.


(** ** GetMultiple *)

Lemma GetMultiple_loop_spec now (d : gmap string Entry) keys :
  ∀ items (w : World), clock w = now →
    let r := RedisCache.GetMultiple_loop (zip keys (redis_MGET now keys d)) items w in
    (∀ k, r.1 !! k =
            if decide (k ∈ keys) then
              match served now d k with
              | Some ci => Some ci
              | None => items !! k
              end
            else items !! k)
    ∧ db r.2 = db w ∧ clock r.2 = clock w ∧ net r.2 = net w.
Proof.
  induction keys as [|key keys IH]; intros items w Hclock.
  { simpl. by split. }
  assert (∀ (k : string) (items' : gmap string CacheItem),
            (∀ ci, served now d key = Some ci → items' !! key = Some ci) →
            (served now d key = None → items' !! key = items !! key) →
            (∀ k', k' ≠ key → items' !! k' = items !! k') →
            (if decide (k ∈ keys) then
               match served now d k with Some ci' => Some ci' | None => items' !! k end
             else items' !! k) =
            (if decide (k ∈ key :: keys) then
               match served now d k with Some ci' => Some ci' | None => items !! k end
             else items !! k)) as Hstep.
  { intros k items' HSome HNone Hne.
    destruct (decide (k = key)) as [->|Hk].
    - rewrite (decide_True (P := key ∈ key :: keys)) by (apply elem_of_cons; by left).
      destruct (served now d key) as [ci'|] eqn:Hs.
      + specialize (HSome ci' eq_refl). by case_decide.
      + rewrite HNone by done. by case_decide.
    - rewrite Hne by done.
      destruct (decide (k ∈ keys)) as [Hin|Hnin].
      + rewrite decide_True by (apply elem_of_cons; by right). done.
      + rewrite decide_False; [done|]. rewrite elem_of_cons. by intros [?|?]. }
  pose proof (eq_refl (served now d key)) as Hs.
  unfold served at 2, fresh_item in Hs.
  assert (∃ items' w',
            RedisCache.GetMultiple_loop
              (zip (key :: keys) (redis_MGET now (key :: keys) d)) items w
            = RedisCache.GetMultiple_loop (zip keys (redis_MGET now keys d)) items' w'
            ∧ clock w' = now ∧ db w' = db w ∧ net w' = net w
            ∧ (∀ ci, served now d key = Some ci → items' !! key = Some ci)
            ∧ (served now d key = None → items' !! key = items !! key)
            ∧ (∀ k', k' ≠ key → items' !! k' = items !! k')) as
    (items' & w' & Heq & Hclock' & Hdb' & Hnet' & HSome & HNone & Hne).
  { simpl. destruct (redis_GET now key d) as [e|] eqn:Hget.
    - destruct (Unmarshal (data e)) as [ci|err] eqn:Hdec.
      + unfold bind at 1. rewrite IsExpired_eq, Hclock.
        destruct (time.After now (ExpiresAt ci)) eqn:Hexp.
        * exists items, (add_detached key w). rewrite Hs. by repeat split.
        * exists (<[key := ci]> items), w. rewrite Hs. repeat split; try done.
          -- intros ci' [= <-]. apply lookup_insert_eq.
          -- intros k' Hk'. by apply lookup_insert_ne.
      + exists items, (add_log (ErrorLevel, "failed to unmarshal cache item") w).
        rewrite Hs. by repeat split.
    - exists items, w. rewrite Hs. by repeat split. }
  intros r. subst r. rewrite Heq.
  destruct (IH items' w' Hclock') as (Hl & Hd & Hc & Hn).
  split; [|by rewrite Hd, Hc, Hn, Hclock', Hclock].
  intros k. rewrite Hl. by apply Hstep.
Qed.

Lemma GetMultiple_ok n keys (w : World) :
  reachable (S n) (net w) = true →
  keys ≠ [] →
  ∃ items w',
    RedisCache.GetMultiple keys w = ((Some items, None), w')
    ∧ db w' = db w
    ∧ ∀ k, items !! k =
             if decide (k ∈ keys) then served (clock w) (db w) k else None.
Proof.
  intros Hnet Hkeys. unfold RedisCache.GetMultiple.
  rewrite bool_decide_eq_false_2 by by destruct keys.
  unfold bind at 1. rewrite (client_MGet_ok n) by done.
  unfold bind at 1.
  pose proof (GetMultiple_loop_spec (clock w) (db w) keys ∅ (sent w) eq_refl)
    as (Hl & Hd & Hc & Hn).
  destruct (RedisCache.GetMultiple_loop _ _ _) as [items w1]. simpl in *.
  eexists items, _. split; [reflexivity|]. split; [done|].
  intros k. rewrite Hl, lookup_empty. case_decide; [|done].
  by destruct (served _ _ _).
Qed.

(** C5: [GetMultiple] of no key answers the empty map and leaves the world
    untouched (no round trip to Redis).  Otherwise, when the MGET goes
    through, it answers a map and no error; a requested key that is absent,
    whose bytes do not decode, or whose item is found expired is not in the
    map, and every other requested key is, with its item. *)
Theorem GetMultiple_excludes_silently keys (w : World) :
  RedisCache.GetMultiple [] w = ((Some ∅, None), w)
  ∧ (reachable 1 (net w) = true → keys ≠ [] →
     ∃ items,
       (RedisCache.GetMultiple keys w).1 = (Some items, None)
       ∧ ∀ k,
           (k ∉ keys → items !! k = None)
           ∧ (redis_GET (clock w) k (db w) = None → items !! k = None)
           ∧ (∀ e err, redis_GET (clock w) k (db w) = Some e →
                Unmarshal (data e) = inr err → items !! k = None)
           ∧ (∀ e ci, redis_GET (clock w) k (db w) = Some e →
                Unmarshal (data e) = inl ci →
                (IsExpired ci w).1 = true → items !! k = None)
           ∧ (∀ e ci, k ∈ keys →
                redis_GET (clock w) k (db w) = Some e →
                Unmarshal (data e) = inl ci →
                (IsExpired ci w).1 = false → items !! k = Some ci)).
Proof.
  split; [done|]. intros Hnet Hkeys.
  destruct (GetMultiple_ok 0 keys w Hnet Hkeys) as (items & w' & Hres & _ & Hl).
  exists items. rewrite Hres. split; [done|]. intros k. rewrite Hl.
  unfold served, fresh_item. repeat split.
  - intros Hk. by rewrite decide_False.
  - intros ->. by case_decide.
  - intros e err -> ->. by case_decide.
  - intros e ci -> ->. rewrite IsExpired_eq. simpl. intros ->. by case_decide.
  - intros e ci Hk -> ->. rewrite IsExpired_eq. simpl. intros ->.
    by rewrite decide_True.
Qed.

(** ** SetMultiple *)

Lemma SetMultiple_loop_spec entries :
  ∀ pipe (w : World),
    ∃ w',
      RedisCache.SetMultiple_loop entries pipe w = ((pipe ++ queued entries)%list, w')
      ∧ db w' = db w ∧ clock w' = clock w ∧ net w' = net w.
Proof.
  induction entries as [|[key item] entries IH]; intros pipe w.
  { exists w. simpl. unfold ret. by rewrite app_nil_r. }
  simpl. unfold queued in *. simpl. destruct (Marshal item) as [value|err].
  - destruct (IH (pipe_Set pipe key value (TTL item)) w) as (w' & Heq & Hw).
    exists w'. rewrite Heq. unfold pipe_Set. by rewrite <- app_assoc.
  - unfold bind, logger.
    destruct (IH pipe (add_log (ErrorLevel, "failed to marshal cache item") w))
      as (w' & Heq & Hw).
    exists w'. by rewrite Heq.
Qed.

Lemma SET_expireAt_insert_ne now key key' ttl e (d : gmap string Entry) :
  key ≠ key' →
  SET_expireAt now key ttl (<[key' := e]> d) = SET_expireAt now key ttl d.
Proof.
  intros Hne. unfold SET_expireAt, redis_GET. by rewrite lookup_insert_ne.
Qed.

Lemma elem_of_pipe_keys (pipe : list (string * Bytes * Duration)) key :
  key ∈ pipe.*1.*1 ↔ ∃ value ttl, (key, value, ttl) ∈ pipe.
Proof.
  rewrite list_elem_of_fmap. split.
  - intros ([k v] & Hk & Hin). simpl in Hk. subst k.
    apply list_elem_of_fmap in Hin as ([[k' v'] t] & Heq & Hin).
    simpl in Heq. injection Heq as -> ->. eauto.
  - intros (v & t & Hin). exists (key, v). split; [done|].
    apply list_elem_of_fmap. by exists (key, v, t).
Qed.

Lemma elem_of_queued entries key value ttl :
  (key, value, ttl) ∈ queued entries ↔
  ∃ item, (key, item) ∈ entries ∧ Marshal item = inl value ∧ ttl = TTL item.
Proof.
  unfold queued. rewrite list_elem_of_omap. split.
  - intros ([k item] & Hin & Hq). destruct (Marshal item) eqn:Hm; [|done].
    injection Hq as <- <- <-. eauto.
  - intros (item & Hin & Hm & ->). exists (key, item). by rewrite Hm.
Qed.

Lemma run_pipeline_other now (pipe : list (string * Bytes * Duration)) :
  ∀ (d : gmap string Entry) key,
    key ∉ pipe.*1.*1 → run_pipeline now pipe d !! key = d !! key.
Proof.
  induction pipe as [|[[key' value] ttl] pipe IH]; intros d key Hnin; [done|].
  simpl in *. apply not_elem_of_cons in Hnin as [Hne Hnin].
  unfold run_pipeline in *. simpl. rewrite IH by done.
  unfold redis_SET. by rewrite lookup_insert_ne.
Qed.

Lemma run_pipeline_lookup now (pipe : list (string * Bytes * Duration)) :
  ∀ (d : gmap string Entry) key value ttl,
    NoDup (pipe.*1.*1) →
    (key, value, ttl) ∈ pipe →
    run_pipeline now pipe d !! key =
      Some (mkEntry value (SET_expireAt now key ttl d)).
Proof.
  induction pipe as [|[[key' value'] ttl'] pipe IH];
    intros d key value ttl Hnd Hin.
  { by apply elem_of_nil in Hin. }
  simpl in Hnd. apply NoDup_cons in Hnd as [Hnin Hnd].
  apply elem_of_cons in Hin as [[= -> -> ->]|Hin].
  - change (run_pipeline now pipe (redis_SET now key' value' ttl' d) !! key' = 
            Some (mkEntry value' (SET_expireAt now key' ttl' d))).
    rewrite run_pipeline_other by done.
    unfold redis_SET. by rewrite lookup_insert_eq.
  - change (run_pipeline now pipe (redis_SET now key' value' ttl' d) !! key = 
            Some (mkEntry value (SET_expireAt now key ttl d))).
    rewrite (IH _ key value ttl) by done.
    unfold redis_SET. rewrite SET_expireAt_insert_ne; [done|].
    intros ->. apply Hnin. apply elem_of_pipe_keys. eauto.
Qed.

Lemma queued_keys entries key :
  key ∈ (queued entries).*1.*1 → key ∈ entries.*1.
Proof.
  intros (value & ttl & (item & Hin & _)%elem_of_queued)%elem_of_pipe_keys.
  apply list_elem_of_fmap. by exists (key, item).
Qed.

Lemma queued_NoDup entries :
  NoDup (entries.*1) → NoDup ((queued entries).*1.*1).
Proof.
  induction entries as [|[key item] entries IH]; [done|].
  simpl. intros [Hnin Hnd]%NoDup_cons. unfold queued in *. simpl.
  destruct (Marshal item); [|by apply IH].
  simpl. apply NoDup_cons. split; [|by apply IH].
  intros Hin. by apply Hnin, queued_keys.
Qed.

Lemma SetMultiple_ok n (items : gmap string CacheItem) (w : World) :
  reachable (S n) (net w) = true →
  ∃ w',
    RedisCache.SetMultiple items w = (None, w')
    ∧ db w' = run_pipeline (clock w) (queued (map_to_list items)) (db w)
    ∧ clock w' = clock w.
Proof.
  intros Hreach. unfold RedisCache.SetMultiple, bind.
  destruct (SetMultiple_loop_spec (map_to_list items) [] w)
    as (w' & -> & Hdb & Hclock & Hnet).
  rewrite <- Hnet in Hreach. rewrite (pipe_Exec_ok n) by done. simpl.
  eexists. split; [reflexivity|]. simpl. by rewrite Hclock, Hdb.
Qed.

Lemma SetMultiple_fails (items : gmap string CacheItem) msg rest (w : World) :
  net w = Some msg :: rest →
  ∃ w',
    RedisCache.SetMultiple items w =
      (Some (Errorf "failed to set multiple cache items" (Some (redis_error msg))), w')
    ∧ db w' = db w.
Proof.
  intros Hfail. unfold RedisCache.SetMultiple, bind.
  destruct (SetMultiple_loop_spec (map_to_list items) [] w)
    as (w' & -> & Hdb & Hclock & Hnet).
  rewrite <- Hnet in Hfail. rewrite (pipe_Exec_fails _ msg rest) by done. simpl.
  eexists. split; [reflexivity|]. done.
Qed.

Lemma queued_lookup now (items : gmap string CacheItem) (d : gmap string Entry) key :
  run_pipeline now (queued (map_to_list items)) d !! key =
    match items !! key with
    | Some item =>
        match Marshal item with
        | inl value => Some (mkEntry value (SET_expireAt now key (TTL item) d))
        | inr _ => d !! key
        end
    | None => d !! key
    end.
Proof.
  pose proof (NoDup_fst_map_to_list items) as Hnd.
  destruct (items !! key) as [item|] eqn:Hitem.
  - apply elem_of_map_to_list in Hitem.
    destruct (Marshal item) as [value|err] eqn:Hm.
    + apply run_pipeline_lookup; [by apply queued_NoDup|].
      apply elem_of_queued. eauto.
    + apply run_pipeline_other.
      intros (v & t & (item' & Hin & Hm' & _)%elem_of_queued)%elem_of_pipe_keys.
      apply elem_of_map_to_list in Hin, Hitem. congruence.
  - apply run_pipeline_other. intros Hin%queued_keys.
    apply list_elem_of_fmap in Hin as ([k item] & Hk & Hin).
    simpl in Hk. subst k.
    apply elem_of_map_to_list in Hin. congruence.
Qed.

(** C4: when the pipelined write goes through, [SetMultiple] returns no
    error; every item of the batch that serializes is then stored under its
    key with its own TTL, and an item that does not serialize is skipped:
    its key keeps what it held.  When the round trip of the pipeline fails,
    the whole call fails with "failed to set multiple cache items" wrapping
    the client's error, and nothing is stored. *)
Theorem SetMultiple_skips_unserializable_items (items : gmap string CacheItem) (w : World) :
  (reachable 1 (net w) = true →
     (RedisCache.SetMultiple items w).1 = None
     ∧ ∀ key,
         db (RedisCache.SetMultiple items w).2 !! key =
           match items !! key with
           | Some item =>
               match Marshal item with
               | inl value =>
                   Some (mkEntry value (SET_expireAt (clock w) key (TTL item) (db w)))
               | inr _ => db w !! key
               end
           | None => db w !! key
           end)
  ∧ (∀ msg rest, net w = Some msg :: rest →
       (RedisCache.SetMultiple items w).1 =
         Some (Errorf "failed to set multiple cache items" (Some (redis_error msg)))
       ∧ db (RedisCache.SetMultiple items w).2 = db w).
Proof.
  split.
  - intros Hreach.
    destruct (SetMultiple_ok 0 items w Hreach) as (w' & -> & Hdb & _).
    simpl. split; [done|]. intros key. rewrite Hdb. apply queued_lookup.
  - intros msg rest Hfail.
    by destruct (SetMultiple_fails items msg rest w Hfail) as (w' & -> & Hdb).
Qed.

(** ** Items created with a non-positive TTL *)

Lemma reachable_cases (fates : list (option string)) :
  reachable 1 fates = true ∨ ∃ msg rest, fates = Some msg :: rest.
Proof. destruct fates as [|[msg|] rest]; eauto. Qed.

Lemma GetMultiple_fails keys msg rest (w : World) :
  net w = Some msg :: rest →
  keys ≠ [] →
  (RedisCache.GetMultiple keys w).1 =
    (None, Some (Errorf "failed to get multiple cache items" (Some (redis_error msg)))).
Proof.
  intros Hnet Hkeys. unfold RedisCache.GetMultiple, bind.
  rewrite bool_decide_eq_false_2 by by destruct keys.
  by rewrite (client_MGet_fails _ msg rest).
Qed.

(** C8, as the code has it: an item created with [ttl <= 0] has
    [expiresAt <= createdAt], and it is expired at every instant strictly
    after its [expiresAt]: at every instant from its creation on when
    [ttl < 0], at every instant after its creation when [ttl = 0].  At such
    an instant [Get] returns no item for a key that holds it, and the map of
    [GetMultiple] has no entry for that key. *)
Theorem nonpositive_ttl_item_expired_after_creation key value ttl (w0 : World) :
  ttl ≤ 0 →
  let item := (NewCacheItem key value ttl w0).1 in
  ExpiresAt item ≤ CreatedAt item
  ∧ ∀ w : World,
      (CreatedAt item < clock w ∨ (ttl < 0 ∧ CreatedAt item ≤ clock w)) →
      (IsExpired item w).1 = true
      ∧ ∀ k,
          (∀ e, redis_GET (clock w) k (db w) = Some e →
                Unmarshal (data e) = inl item) →
          (RedisCache.Get k w).1.1 = None
          ∧ ∀ keys items,
              (RedisCache.GetMultiple keys w).1.1 = Some items →
              items !! k = None.
Proof.
  intros Httl item. subst item. rewrite NewCacheItem_eq.
  cbn [fst ExpiresAt CreatedAt]. unfold time.Add. split; [lia|].
  intros w Hlater.
  assert (time.After (clock w) (clock w0 + ttl) = true) as Hexp.
  { unfold time.After. apply bool_decide_eq_true_2. lia. }
  split; [by rewrite IsExpired_eq|].
  intros k Hholds. split.
  - destruct (reachable_cases (net w)) as [Hnet|(msg & rest & Hnet)].
    + destruct (redis_GET (clock w) k (db w)) as [e|] eqn:Hget.
      * by rewrite (Get_expired 0 k e _ w Hnet Hget (Hholds e eq_refl)).
      * by rewrite (Get_absent 0).
    + by rewrite (Get_fails _ msg rest).
  - intros keys items.
    destruct (decide (keys = [])) as [->|Hkeys].
    { simpl. by intros [= <-]. }
    destruct (reachable_cases (net w)) as [Hnet|(msg & rest & Hnet)].
    + destruct (GetMultiple_ok 0 keys w Hnet Hkeys) as (items' & w' & -> & _ & Hl).
      simpl. intros [= <-]. rewrite Hl. case_decide; [|done].
      unfold served, fresh_item.
      destruct (redis_GET (clock w) k (db w)) as [e|] eqn:Hget; [|done].
      rewrite (Hholds e eq_refl). cbn [ExpiresAt]. by rewrite Hexp.
    + by rewrite (GetMultiple_fails _ msg rest).
Qed.

(** ** The handlers' default TTL *)

Variable ParseDuration : string → Duration + error.

Lemma parse_TTL_empty : CacheHandler.parse_TTL ParseDuration "" = inl time.Hour.
Proof. reflexivity. Qed.

Lemma Set_succeeds key value ttl (w : World) :
  (RedisCache.Set_ key value ttl w).1 = None →
  ∃ data,
    Marshal (NewCacheItem key value ttl w).1 = inl data
    ∧ db (RedisCache.Set_ key value ttl w).2 = redis_SET (clock w) key data ttl (db w).
Proof.
  destruct (Marshal (NewCacheItem key value ttl w).1) as [data|err] eqn:Hm.
  - destruct (reachable_cases (net w)) as [Hnet|(msg & rest & Hnet)].
    + rewrite (Set_ok 0 key value ttl data w Hm Hnet). eauto.
    + unfold RedisCache.Set_, bind. rewrite NewCacheItem_eq in *.
      simpl in Hm. rewrite Hm, (client_Set_fails _ _ _ msg rest) by done.
      by simpl.
  - unfold RedisCache.Set_, bind. rewrite NewCacheItem_eq in *.
    simpl in Hm. by rewrite Hm.
Qed.

Lemma SetMultiple_succeeds (items : gmap string CacheItem) (w : World) :
  (RedisCache.SetMultiple items w).1 = None →
  db (RedisCache.SetMultiple items w).2 =
    run_pipeline (clock w) (queued (map_to_list items)) (db w).
Proof.
  destruct (reachable_cases (net w)) as [Hnet|(msg & rest & Hnet)].
  - by destruct (SetMultiple_ok 0 items w Hnet) as (w' & -> & Hdb & _).
  - by destruct (SetMultiple_fails items msg rest w Hnet) as (w' & -> & _).
Qed.

Lemma SetMultiple_items_spec entries :
  ∀ (items items' : gmap string CacheItem) (w w' : World),
    NoDup (entries.*1) →
    CacheHandler.SetMultiple_items ParseDuration entries items w = (inl items', w') →
    w' = w
    ∧ (∀ key, key ∉ entries.*1 → items' !! key = items !! key)
    ∧ (∀ key request, (key, request) ∈ entries →
         ∃ ttl,
           CacheHandler.parse_TTL ParseDuration (CacheHandler.request_TTL request) = inl ttl
           ∧ items' !! key =
               Some (mkCacheItem key (CacheHandler.request_Value request) ttl
                       (clock w) (time.Add (clock w) ttl))).
Proof.
  induction entries as [|[key0 request0] entries IH];
    intros items items' w w' Hnd Hrun.
  { injection Hrun as <- <-. split; [done|]. split; [done|].
    intros key request Hin. by apply elem_of_nil in Hin. }
  simpl in Hnd. apply NoDup_cons in Hnd as [Hnin Hnd].
  simpl in Hrun.
  destruct (CacheHandler.parse_TTL _ _) as [ttl0|err] eqn:Hparse; [|done].
  unfold bind in Hrun. rewrite NewCacheItem_eq in Hrun.
  destruct (IH _ _ _ _ Hnd Hrun) as (-> & Hother & Hin).
  split; [done|]. split.
  - intros key [Hne Hnin']%not_elem_of_cons.
    rewrite Hother by done. by rewrite lookup_insert_ne.
  - intros key request [[= -> ->]|Hin']%elem_of_cons.
    + exists ttl0. split; [done|]. rewrite Hother by done.
      apply lookup_insert_eq.
    + by apply Hin.
Qed.

(** C10: a store request whose TTL field is omitted or empty gets the TTL
    of one hour ([3 600 000 000 000] nanoseconds).  [SetItem] then calls
    [Set] with one hour, and when it answers 200 the item stored under the
    key has [expiresAt = createdAt + 1h].  [SetMultiple] builds for such a
    key an item with TTL one hour and [expiresAt = createdAt + 1h] and
    hands it to the façade's [SetMultiple]; when it answers 200 and the item
    serializes, that item is what the key holds. *)
Theorem handlers_default_TTL_is_one_hour :
  CacheHandler.parse_TTL ParseDuration "" = inl time.Hour
  ∧ time.Hour = 3600000000000
  ∧ (∀ key request (w : World),
       CacheHandler.request_TTL request = "" →
       key ≠ "" →
       let value := CacheHandler.request_Value request in
       let answer := CacheHandler.SetItem ParseDuration key (Some request) w in
       db answer.2 = db (RedisCache.Set_ key value time.Hour w).2
       ∧ (CacheHandler.status answer.1 = CacheHandler.StatusOK →
            (RedisCache.Set_ key value time.Hour w).1 = None
            ∧ ∃ e item,
                db answer.2 !! key = Some e
                ∧ Unmarshal (data e) = inl item
                ∧ Key item = key ∧ Value item = value
                ∧ TTL item = time.Hour
                ∧ ExpiresAt item = time.Add (CreatedAt item) time.Hour))
  ∧ (∀ requests key request (w : World),
       requests !! key = Some request →
       CacheHandler.request_TTL request = "" →
       let item := mkCacheItem key (CacheHandler.request_Value request) time.Hour
                     (clock w) (time.Add (clock w) time.Hour) in
       let answer := CacheHandler.SetMultiple ParseDuration (Some requests) w in
       (∀ items w1,
          CacheHandler.SetMultiple_items ParseDuration (map_to_list requests) ∅ w
            = (inl items, w1) →
          items !! key = Some item)
       ∧ (CacheHandler.status answer.1 = CacheHandler.StatusOK →
            ∃ items,
              CacheHandler.SetMultiple_items ParseDuration (map_to_list requests) ∅ w
                = (inl items, w)
              ∧ items !! key = Some item
              ∧ (RedisCache.SetMultiple items w).1 = None
              ∧ ∀ value, Marshal item = inl value →
                  db answer.2 !! key =
                    Some (mkEntry value (Some (time.Add (clock w) time.Hour))))).
Proof.
  split; [done|]. split; [done|]. split.
  - intros key request w Httl Hkey value answer. subst value answer.
    pose proof (Set_succeeds key (CacheHandler.request_Value request) time.Hour w) as Hs.
    assert (CacheHandler.SetItem ParseDuration key (Some request) w =
            (let* err := RedisCache.Set_ key (CacheHandler.request_Value request) time.Hour in
             match err with
             | Some _ =>
                 logger ErrorLevel "failed to set cache item" ;;
                 ret (CacheHandler.JSON_response CacheHandler.StatusInternalServerError
                        (CacheHandler.H_error "failed to set cache item"))
             | None =>
                 logger DebugLevel "cache item set via API" ;;
                 ret (CacheHandler.JSON_response CacheHandler.StatusOK
                        (CacheHandler.H_message "item stored successfully"))
             end) w) as ->.
    { unfold CacheHandler.SetItem.
      rewrite bool_decide_eq_false_2 by done. by rewrite Httl, parse_TTL_empty. }
    unfold bind.
    destruct (RedisCache.Set_ _ _ _ w) as [[err|] w1]; simpl in *.
    { split; [done|]. intros Hst. by vm_compute in Hst. }
    split; [done|]. intros _. split; [done|].
    destruct (Hs eq_refl) as (value & Hm & ->).
    eexists _, _. unfold redis_SET. rewrite lookup_insert_eq.
    split; [done|]. split; [by apply Unmarshal_Marshal|]. done.
  - intros requests key request w Hreq Httl item answer.
    assert (∀ items w1,
              CacheHandler.SetMultiple_items ParseDuration (map_to_list requests) ∅ w
                = (inl items, w1) →
              w1 = w ∧ items !! key = Some item) as Hitems.
    { intros items w1 Hrun.
      destruct (SetMultiple_items_spec _ _ _ _ _ (NoDup_fst_map_to_list requests) Hrun)
        as (-> & _ & Hin).
      split; [done|].
      destruct (Hin key request) as (ttl & Hparse & ->);
        [by apply elem_of_map_to_list|].
      rewrite Httl, parse_TTL_empty in Hparse. by injection Hparse as <-. }
    split; [intros items w1 Hrun; by apply (Hitems items w1)|].
    subst answer. unfold CacheHandler.SetMultiple, bind.
    destruct (CacheHandler.SetMultiple_items _ _ _ _) as [[items|badkey] w1] eqn:Hrun;
      [|intros Hst; by vm_compute in Hst].
    destruct (Hitems items w1 eq_refl) as [-> Hitem].
    pose proof (SetMultiple_succeeds items w) as Hs.
    destruct (RedisCache.SetMultiple items w) as [[err|] w2] eqn:HSM; simpl in *;
      [intros Hst; by vm_compute in Hst|].
    intros _. exists items. rewrite HSM.
    split; [done|]. split; [done|]. split; [done|].
    intros value Hm. rewrite (Hs eq_refl), queued_lookup, Hitem. subst item.
    by rewrite Hm.
Qed.

End Claims.

(** * More of the façade *)

Section MoreFacade.
Context `{codec : JSON}.

Lemma client_Exists_ok n keys (w : World) :
  reachable (S n) (net w) = true →
  client_Exists keys w = (inl (redis_EXISTS (clock w) keys (db w)), sent w).
Proof.
  intros [Hrt _]%roundtrip_sent. unfold client_Exists, bind. by rewrite Hrt.
Qed.

Lemma client_FlushDB_ok n (w : World) :
  reachable (S n) (net w) = true →
  client_FlushDB w = (None, set_db (λ _, ∅) (sent w)).
Proof.
  intros [Hrt _]%roundtrip_sent. unfold client_FlushDB, bind. by rewrite Hrt.
Qed.

Lemma client_FlushDB_fails msg rest (w : World) :
  net w = Some msg :: rest →
  client_FlushDB w = (Some (redis_error msg), set_net rest w).
Proof.
  intros Hrt%roundtrip_fails. unfold client_FlushDB, bind. by rewrite Hrt.
Qed.

Lemma client_DBSize_ok n (w : World) :
  reachable (S n) (net w) = true →
  client_DBSize w = (inl (redis_DBSIZE (db w)), sent w).
Proof.
  intros [Hrt _]%roundtrip_sent. unfold client_DBSize, bind. by rewrite Hrt.
Qed.

Lemma reachable_sent n (w : World) :
  reachable (S n) (net w) = true → reachable n (net (sent w)) = true.
Proof. by intros [_ H]%roundtrip_sent. Qed.

Lemma redis_EXISTS_one now key (d : gmap string Entry) :
  redis_EXISTS now [key] d = if redis_GET now key d is Some _ then 1 else 0.
Proof.
  unfold redis_EXISTS. rewrite filter_cons, filter_nil.
  destruct (redis_GET now key d) as [e|] eqn:Hget.
  - by rewrite decide_True by eauto.
  - rewrite decide_False; [done|]. by intros [? ?].
Qed.

Lemma Exists_ok n key (w : World) :
  reachable (S n) (net w) = true →
  cache.Exists key w =
    ((bool_decide (is_Some (redis_GET (clock w) key (db w))), None), sent w).
Proof.
  intros Hnet. unfold cache.Exists, bind. rewrite (client_Exists_ok n) by done.
  rewrite redis_EXISTS_one. unfold ret.
  by destruct (redis_GET _ _ _) as [e|].
Qed.

Lemma redis_GET_delete now key (d : gmap string Entry) :
  redis_GET now key (delete key d) = None.
Proof. unfold redis_GET. by rewrite lookup_delete_eq. Qed.

(** X1: [Delete] succeeds whether or not the key is there (the round trip
    going through): afterwards the key is absent and every other key holds
    what it held; deleting an absent key changes nothing, so a second
    [Delete] succeeds and leaves the database as the first one did. *)
Theorem Delete_is_idempotent key (w : World) :
  reachable 2 (net w) = true →
  let w1 := (RedisCache.Delete key w).2 in
  (RedisCache.Delete key w).1 = None
  ∧ db w1 !! key = None
  ∧ (∀ key', key' ≠ key → db w1 !! key' = db w !! key')
  ∧ (db w !! key = None → db w1 = db w)
  ∧ (RedisCache.Delete key w1).1 = None
  ∧ db (RedisCache.Delete key w1).2 = db w1.
Proof.
  intros Hnet w1. subst w1.
  rewrite (Delete_ok 1) by done. simpl.
  split; [done|]. split; [apply lookup_delete_eq|].
  split; [intros key' Hne; by apply lookup_delete_ne|].
  split; [apply delete_id|].
  rewrite (Delete_ok 0) by (simpl; by apply (reachable_sent 1)).
  simpl. split; [done|]. by rewrite delete_delete_eq.
Qed.

(** X2: [Exists] asks the store only.  For a key the store serves it answers
    true whatever the bytes are, also when they decode to an item that is
    expired, for which [Get] at the same instant answers "no item"; that
    [Get] removes the key, and [Exists] answers false from then on. *)
Theorem Exists_does_not_check_the_item key e (w : World) :
  reachable 4 (net w) = true →
  redis_GET (clock w) key (db w) = Some e →
  let w1 := (cache.Exists key w).2 in
  (cache.Exists key w).1 = (true, None)
  ∧ db w1 = db w
  ∧ ∀ item,
      Unmarshal (data e) = inl item →
      (IsExpired item w).1 = true →
      (RedisCache.Get key w1).1 = (None, None)
      ∧ (cache.Exists key (RedisCache.Get key w1).2).1 = (false, None).
Proof.
  intros Hnet Hget w1. subst w1. rewrite (Exists_ok 3) by done.
  rewrite Hget. split; [done|]. split; [done|]. intros item Hdec Hexp.
  rewrite IsExpired_eq in Hexp. cbn [fst snd] in *.
  pose proof (reachable_sent 3 w Hnet) as Hnet1.
  pose proof (Get_expired 2 key e item (sent w) Hnet1 Hget Hdec Hexp) as HGet.
  rewrite HGet. split; [done|]. cbn [fst snd].
  pose proof (reachable_sent 2 (sent w) Hnet1) as Hnet2.
  rewrite (Delete_ok 1) by exact Hnet2. cbn [fst snd].
  pose proof (reachable_sent 1 (sent (sent w)) Hnet2) as Hnet3.
  rewrite (Exists_ok 0) by exact Hnet3.
  simpl. by rewrite redis_GET_delete.
Qed.

Lemma Set_cases key value ttl (w : World) :
  (∃ data,
     Marshal (NewCacheItem key value ttl w).1 = inl data
     ∧ reachable 1 (net w) = true
     ∧ RedisCache.Set_ key value ttl w =
         (None, add_log (DebugLevel, "cache item set successfully")
                  (set_db (redis_SET (clock w) key data ttl) (sent w))))
  ∨ (∃ err,
       Marshal (NewCacheItem key value ttl w).1 = inr err
       ∧ RedisCache.Set_ key value ttl w =
           (Some (Errorf "failed to marshal cache item" (Some err)),
            add_log (ErrorLevel, "failed to marshal cache item") w))
  ∨ (∃ data msg rest,
       Marshal (NewCacheItem key value ttl w).1 = inl data
       ∧ net w = Some msg :: rest
       ∧ RedisCache.Set_ key value ttl w =
           (Some (Errorf "failed to set cache item" (Some (redis_error msg))),
            add_log (ErrorLevel, "failed to set cache item") (set_net rest w))).
Proof.
  destruct (Marshal (NewCacheItem key value ttl w).1) as [data|err] eqn:Hm.
  - destruct (reachable_cases (net w)) as [Hnet|(msg & rest & Hnet)].
    + left. exists data. by rewrite (Set_ok 0 key value ttl data w Hm Hnet).
    + right. right. exists data, msg, rest. split; [done|]. split; [done|].
      unfold RedisCache.Set_, bind. rewrite NewCacheItem_eq in *.
      simpl in Hm. by rewrite Hm, (client_Set_fails _ _ _ msg rest).
  - right. left. exists err. split; [done|].
    unfold RedisCache.Set_, bind. rewrite NewCacheItem_eq in *.
    simpl in Hm. by rewrite Hm.
Qed.

(** X3: a [Set] that fails stores nothing.  When the value does not
    serialize, [Set] returns "failed to marshal cache item" wrapping the
    encoder's error without any round trip to Redis; when the round trip
    fails, it returns "failed to set cache item" wrapping the client's error.
    Whenever [Set] returns an error the database is as it was. *)
Theorem Set_failure_stores_nothing key value ttl (w : World) :
  (∀ err, Marshal (NewCacheItem key value ttl w).1 = inr err →
     (RedisCache.Set_ key value ttl w).1 =
       Some (Errorf "failed to marshal cache item" (Some err))
     ∧ net (RedisCache.Set_ key value ttl w).2 = net w)
  ∧ (∀ data msg rest,
       Marshal (NewCacheItem key value ttl w).1 = inl data →
       net w = Some msg :: rest →
       (RedisCache.Set_ key value ttl w).1 =
         Some (Errorf "failed to set cache item" (Some (redis_error msg))))
  ∧ (∀ err, (RedisCache.Set_ key value ttl w).1 = Some err →
       db (RedisCache.Set_ key value ttl w).2 = db w).
Proof.
  destruct (Set_cases key value ttl w)
    as [(data & Hm & Hnet & ->)|[(err & Hm & ->)|(data & msg & rest & Hm & Hnet & ->)]];
    rewrite Hm; (split; [|split]); try done.
  - intros d m r _ Hfail. by rewrite Hfail in Hnet.
  - by intros err' [= <-].
  - intros d m r _ Hfail. rewrite Hfail in Hnet. by injection Hnet as -> ->.
Qed.

(** X4: bytes that do not decode are an error for [Get], not a miss: it
    returns "failed to unmarshal cache item" wrapping the decoder's error,
    makes no second round trip and leaves the key in place.  [GetMultiple]
    of the same key leaves it out of its map and returns no error. *)
Theorem Get_corrupt_bytes_is_an_error key e err (w : World) :
  reachable 1 (net w) = true →
  redis_GET (clock w) key (db w) = Some e →
  Unmarshal (data e) = inr err →
  (RedisCache.Get key w).1 =
    (None, Some (Errorf "failed to unmarshal cache item" (Some err)))
  ∧ db (RedisCache.Get key w).2 = db w
  ∧ net (RedisCache.Get key w).2 = tail (net w)
  ∧ ∃ items,
      (RedisCache.GetMultiple [key] w).1 = (Some items, None)
      ∧ items !! key = None.
Proof.
  intros Hnet Hget Hdec. rewrite (Get_corrupt 0 key e err) by done.
  repeat split; try done.
  destruct (GetMultiple_ok 0 [key] w Hnet) as (items & w' & -> & _ & Hl); [done|].
  exists items. split; [done|]. rewrite Hl.
  rewrite decide_True by (apply elem_of_cons; by left).
  unfold served, fresh_item. by rewrite Hget, Hdec.
Qed.

Lemma redis_DEL_lookup keys (d : gmap string Entry) key :
  redis_DEL keys d !! key = if decide (key ∈ keys) then None else d !! key.
Proof.
  induction keys as [|key0 keys IH]; simpl; [done|].
  destruct (decide (key = key0)) as [->|Hne].
  - rewrite lookup_delete_eq. rewrite decide_True; [done|].
    apply elem_of_cons. by left.
  - rewrite lookup_delete_ne by done. rewrite IH.
    destruct (decide (key ∈ keys)) as [Hin|Hnin].
    + rewrite decide_True; [done|]. apply elem_of_cons. by right.
    + rewrite decide_False; [done|]. rewrite elem_of_cons. by intros [?|?].
Qed.

(** X5: [DeleteMultiple] of no key returns at once and leaves the world
    untouched.  Otherwise, when the round trip goes through, every named key
    is absent afterwards, whether or not it was there, and every other key
    holds what it held; when the round trip fails the call returns "failed
    to delete multiple cache items" and nothing is removed. *)
Theorem DeleteMultiple_removes_every_key keys (w : World) :
  cache.DeleteMultiple [] w = (None, w)
  ∧ (reachable 1 (net w) = true →
       (cache.DeleteMultiple keys w).1 = None
       ∧ ∀ key,
           db (cache.DeleteMultiple keys w).2 !! key =
             if decide (key ∈ keys) then None else db w !! key)
  ∧ (∀ msg rest, net w = Some msg :: rest → keys ≠ [] →
       (cache.DeleteMultiple keys w).1 =
         Some (Errorf "failed to delete multiple cache items" (Some (redis_error msg)))
       ∧ db (cache.DeleteMultiple keys w).2 = db w).
Proof.
  split; [done|]. split.
  - intros Hnet. destruct keys as [|key0 keys].
    { by simpl. }
    unfold cache.DeleteMultiple, bind. simpl.
    rewrite (client_Del_ok 0) by done. simpl. split; [done|].
    intros key. apply (redis_DEL_lookup (key0 :: keys)).
  - intros msg rest Hnet Hkeys. destruct keys as [|key0 keys]; [done|].
    unfold cache.DeleteMultiple, bind. simpl.
    by rewrite (client_Del_fails _ msg rest).
Qed.

Lemma Clear_ok n (w : World) :
  reachable (S n) (net w) = true →
  cache.Clear w =
    (None, add_log (InfoLevel, "cache cleared successfully")
             (set_db (λ _, ∅) (sent w))).
Proof.
  intros Hnet. unfold cache.Clear, bind. by rewrite (client_FlushDB_ok n).
Qed.

Lemma Size_ok n (w : World) :
  reachable (S n) (net w) = true →
  cache.Size w = ((Z.of_nat (size (db w)), None), sent w).
Proof.
  intros Hnet. unfold cache.Size, bind. by rewrite (client_DBSize_ok n).
Qed.

(** X6: after a [Clear] that went through the store is empty: [Size]
    answers 0 and [Get] of any key answers "no item".  A [Clear] whose round
    trip fails returns "failed to clear cache" and removes nothing. *)
Theorem Clear_empties_the_store (w : World) :
  (reachable 2 (net w) = true →
     let w1 := (cache.Clear w).2 in
     (cache.Clear w).1 = None
     ∧ db w1 = ∅
     ∧ (cache.Size w1).1 = (0, None)
     ∧ ∀ key, (RedisCache.Get key w1).1 = (None, None))
  ∧ (∀ msg rest, net w = Some msg :: rest →
       (cache.Clear w).1 =
         Some (Errorf "failed to clear cache" (Some (redis_error msg)))
       ∧ db (cache.Clear w).2 = db w).
Proof.
  split.
  - intros Hnet w1. subst w1. rewrite (Clear_ok 1) by done. cbn [fst snd].
    pose proof (reachable_sent 1 w Hnet) as Hnet1.
    split; [done|]. split; [done|]. split.
    + by rewrite (Size_ok 0).
    + intros key. by rewrite (Get_absent 0).
  - intros msg rest Hnet. unfold cache.Clear, bind.
    by rewrite (client_FlushDB_fails msg rest).
Qed.





End MoreFacade.

(** * More of the handlers *)

Section MoreHandlers.
Context `{codec : JSON}.
Variable ParseDuration : string → Duration + error.
Variable Duration_String : Duration → string.

Lemma SetItem_stores n key request ttl data (w : World) :
  key ≠ "" →
  CacheHandler.parse_TTL ParseDuration (CacheHandler.request_TTL request) = inl ttl →
  Marshal (NewCacheItem key (CacheHandler.request_Value request) ttl w).1 = inl data →
  reachable (S n) (net w) = true →
  CacheHandler.SetItem ParseDuration key (Some request) w =
    (CacheHandler.JSON_response CacheHandler.StatusOK
       (CacheHandler.H_message "item stored successfully"),
     add_log (DebugLevel, "cache item set via API")
       (add_log (DebugLevel, "cache item set successfully")
          (set_db (redis_SET (clock w) key data ttl) (sent w)))).
Proof.
  intros Hkey Hparse Hm Hnet. unfold CacheHandler.SetItem.
  rewrite bool_decide_eq_false_2 by done. rewrite Hparse. unfold bind.
  by rewrite (Set_ok n key _ ttl data w Hm Hnet).
Qed.

Lemma GetItem_of_Get key (w : World) :
  key ≠ "" →
  handlers.GetItem Duration_String key w =
    (let* (item, err) := RedisCache.Get key in
     match err with
     | Some _ =>
         logger ErrorLevel "failed to get cache item" ;;
         ret (handlers.mkAnswer handlers.StatusInternalServerError
                (handlers.H_error "failed to get cache item"))
     | None =>
         match item with
         | None =>
             ret (handlers.mkAnswer handlers.StatusNotFound
                    (handlers.H_error "key not found"))
         | Some item =>
             let* remaining := RemainingTTL item in
             ret (handlers.mkAnswer handlers.StatusOK
                    (handlers.H_item (Key item) (Value item) (CreatedAt item)
                       (ExpiresAt item) (Duration_String remaining)))
         end
     end) w.
Proof.
  intros Hkey. unfold handlers.GetItem. by rewrite bool_decide_eq_false_2.
Qed.

Lemma GetItem_miss key (w : World) :
  key ≠ "" →
  (RedisCache.Get key w).1 = (None, None) →
  (handlers.GetItem Duration_String key w).1 =
    handlers.mkAnswer handlers.StatusNotFound (handlers.H_error "key not found").
Proof.
  intros Hkey HGet. rewrite GetItem_of_Get by done. unfold bind.
  destruct (RedisCache.Get key w) as [[item err] w']. simpl in HGet.
  by injection HGet as -> ->.
Qed.

Lemma GetItem_error key err (w : World) :
  key ≠ "" →
  (RedisCache.Get key w).1.2 = Some err →
  (handlers.GetItem Duration_String key w).1 =
    handlers.mkAnswer handlers.StatusInternalServerError
      (handlers.H_error "failed to get cache item").
Proof.
  intros Hkey HGet. rewrite GetItem_of_Get by done. unfold bind.
  destruct (RedisCache.Get key w) as [[item err'] w']. simpl in HGet.
  by subst err'.
Qed.

Lemma GetItem_found key item (w w' : World) :
  key ≠ "" →
  RedisCache.Get key w = ((Some item, None), w') →
  (handlers.GetItem Duration_String key w).1 =
    handlers.mkAnswer handlers.StatusOK
      (handlers.H_item (Key item) (Value item) (CreatedAt item) (ExpiresAt item)
         (Duration_String (RemainingTTL item w').1)).
Proof.
  intros Hkey HGet. rewrite GetItem_of_Get by done. unfold bind.
  rewrite HGet. by destruct (RemainingTTL item w').
Qed.

(** X9: an item stored through [SetItem] with a TTL that parses to
    [ttl > 0] is answered by [GetItem] with status 200, its key, its value
    and the remaining TTL [ttl - d] as long as no more than [ttl] has
    passed; later [GetItem] answers 404 "key not found". *)
Theorem SetItem_then_GetItem key request ttl d data (w : World) :
  key ≠ "" →
  CacheHandler.parse_TTL ParseDuration (CacheHandler.request_TTL request) = inl ttl →
  0 < ttl →
  ttl ≤ time.maxDuration →
  0 ≤ d →
  Marshal (NewCacheItem key (CacheHandler.request_Value request) ttl w).1 = inl data →
  reachable 2 (net w) = true →
  let w1 := (CacheHandler.SetItem ParseDuration key (Some request) w).2 in
  let answer := (handlers.GetItem Duration_String key (Sleep d w1).2).1 in
  CacheHandler.status (CacheHandler.SetItem ParseDuration key (Some request) w).1
    = CacheHandler.StatusOK
  ∧ (d ≤ ttl →
       answer =
         handlers.mkAnswer handlers.StatusOK
           (handlers.H_item key (CacheHandler.request_Value request)
              (clock w) (time.Add (clock w) ttl) (Duration_String (ttl - d))))
  ∧ (ttl < d →
       answer =
         handlers.mkAnswer handlers.StatusNotFound (handlers.H_error "key not found")).
Proof.
  intros Hkey Hparse Httl Hmax Hd Hm Hnet w1 answer. subst answer w1.
  rewrite (SetItem_stores 1 key request ttl data w) by done.
  split; [done|]. cbn [snd]. set (w2 := (Sleep d _).2).
  pose proof (reachable_sent 1 w Hnet) as Hnet2.
  change (reachable 1 (net w2) = true) in Hnet2.
  set (e := mkEntry data (Some (time.Add (clock w) ttl))).
  assert (redis_GET (clock w2) key (db w2) =
          if bool_decide (d ≤ ttl) then Some e else None) as Hget.
  { subst w2. simpl. unfold redis_SET, SET_expireAt.
    rewrite bool_decide_eq_true_2 by done. rewrite redis_GET_expiry.
    unfold time.Add. repeat case_bool_decide; done || lia. }
  split.
  - intros Hle. rewrite bool_decide_eq_true_2 in Hget by done.
    rewrite NewCacheItem_eq in Hm. cbn [fst] in Hm.
    erewrite GetItem_found; [|done|].
    2: { apply (Get_fresh 0 key e _ w2 Hnet2 Hget (Unmarshal_Marshal _ _ Hm)).
         subst w2. simpl. unfold time.After, time.Add.
         apply bool_decide_eq_false_2. lia. }
    cbn [Key Value CreatedAt ExpiresAt]. do 3 f_equal.
    unfold RemainingTTL, bind. rewrite IsExpired_eq. subst w2. simpl.
    unfold time.After, time.Add. rewrite bool_decide_eq_false_2 by lia. simpl.
    rewrite Sub_exact; [lia|]. unfold time.minDuration. lia.
  - intros Hlt. rewrite bool_decide_eq_false_2 in Hget by lia.
    apply GetItem_miss; [done|]. by rewrite (Get_absent 0 key w2 Hnet2 Hget).
Qed.

(** X10: how [GetItem] answers for a key that is not empty: 404 "key not
    found" when the store does not hold the key and when the item it holds
    is expired; 500 "failed to get cache item" when the bytes do not decode
    and when the round trip fails.  For the empty key it answers 400 and
    does nothing. *)
Theorem GetItem_status key (w : World) :
  (key = "" →
     handlers.GetItem Duration_String key w =
       (handlers.mkAnswer handlers.StatusBadRequest (handlers.H_error "key is required"), w))
  ∧ (key ≠ "" →
     let answer := (handlers.GetItem Duration_String key w).1 in
     (reachable 1 (net w) = true →
        (redis_GET (clock w) key (db w) = None
         ∨ stale (clock w) (db w) key = true) →
        answer = handlers.mkAnswer handlers.StatusNotFound (handlers.H_error "key not found"))
     ∧ (reachable 1 (net w) = true →
        (∀ e, redis_GET (clock w) key (db w) = Some e →
              ∃ err, Unmarshal (data e) = inr err) →
        is_Some (redis_GET (clock w) key (db w)) →
        answer = handlers.mkAnswer handlers.StatusInternalServerError
                   (handlers.H_error "failed to get cache item"))
     ∧ (∀ msg rest, net w = Some msg :: rest →
        answer = handlers.mkAnswer handlers.StatusInternalServerError
                   (handlers.H_error "failed to get cache item"))).
Proof.
  split.
  - intros ->. reflexivity.
  - intros Hkey answer. subst answer. split; [|split].
    + intros Hnet [Habs|Hstale]; apply GetItem_miss; try done.
      * by rewrite (Get_absent 0).
      * unfold stale in Hstale.
        destruct (redis_GET (clock w) key (db w)) as [e|] eqn:Hget; [|done].
        destruct (Unmarshal (data e)) as [item|] eqn:Hdec; [|done].
        by rewrite (Get_expired 0 key e item).
    + intros Hnet Hbad [e Hget]. destruct (Hbad e Hget) as [err Hdec].
      eapply GetItem_error; [done|]. by rewrite (Get_corrupt 0 key e err).
    + intros msg rest Hnet.
      eapply GetItem_error; [done|]. by rewrite (Get_fails key msg rest).
Qed.

(** X11: [SetExpiration] on a key the store does not hold answers 500
    "failed to set expiration", the very answer it gives when the round trip
    to Redis fails; on a key the store holds it answers 200. *)
Theorem SetExpiration_missing_key_answers_500 key request_TTL ttl (w : World) :
  key ≠ "" →
  ParseDuration request_TTL = inl ttl →
  let answer := (handlers.SetExpiration ParseDuration key (Some request_TTL) w).1 in
  let failed :=
    handlers.mkAnswer handlers.StatusInternalServerError
      (handlers.H_error "failed to set expiration") in
  (reachable 1 (net w) = true → redis_GET (clock w) key (db w) = None →
     answer = failed)
  ∧ (∀ msg rest, net w = Some msg :: rest → answer = failed)
  ∧ (reachable 1 (net w) = true → is_Some (redis_GET (clock w) key (db w)) →
       answer = handlers.mkAnswer handlers.StatusOK
                  (handlers.H_message "expiration set successfully")).
Proof.
  intros Hkey Hparse answer failed. subst answer failed.
  unfold handlers.SetExpiration. rewrite bool_decide_eq_false_2 by done.
  rewrite Hparse. unfold bind. split; [|split].
  - intros Hnet Habs. by rewrite (Expire_absent 0).
  - intros msg rest Hnet. by rewrite (Expire_fails _ _ msg rest).
  - intros Hnet [e Hget]. by rewrite (Expire_present 0 key ttl e).
Qed.

Lemma SetMultiple_items_world entries :
  ∀ (items : gmap string CacheItem) (w : World),
    (CacheHandler.SetMultiple_items ParseDuration entries items w).2 = w.
Proof.
  induction entries as [|[key request] entries IH]; intros items w; [done|].
  simpl. destruct (CacheHandler.parse_TTL _ _); [|done].
  unfold bind. rewrite NewCacheItem_eq. apply IH.
Qed.

Lemma SetMultiple_items_rejects entries :
  ∀ (items : gmap string CacheItem) (w : World) key request err,
    (key, request) ∈ entries →
    CacheHandler.parse_TTL ParseDuration (CacheHandler.request_TTL request) = inr err →
    ∃ key', (CacheHandler.SetMultiple_items ParseDuration entries items w).1 = inr key'.
Proof.
  induction entries as [|[key0 request0] entries IH];
    intros items w key request err Hin Hparse.
  { by apply elem_of_nil in Hin. }
  simpl. destruct (CacheHandler.parse_TTL _ (CacheHandler.request_TTL request0))
    as [ttl0|err0] eqn:Hparse0; [|by eexists].
  apply elem_of_cons in Hin as [[= -> ->]|Hin]; [congruence|].
  unfold bind. rewrite NewCacheItem_eq. by apply (IH _ _ key request err).
Qed.

(** X12: a store request that is answered 400 has touched nothing: for
    [SetItem] (empty key, rejected body, TTL that does not parse) and for
    [SetMultiple] (rejected body, or a TTL that does not parse) the database
    is as it was and no round trip to Redis was made.  In [SetMultiple] one
    TTL that does not parse is enough: the whole batch is answered 400, the
    items with a good TTL included. *)
Theorem rejected_store_requests_touch_nothing (w : World) :
  (∀ key bound,
     CacheHandler.status (CacheHandler.SetItem ParseDuration key bound w).1
       = CacheHandler.StatusBadRequest →
     db (CacheHandler.SetItem ParseDuration key bound w).2 = db w
     ∧ net (CacheHandler.SetItem ParseDuration key bound w).2 = net w)
  ∧ (∀ bound,
       CacheHandler.status (CacheHandler.SetMultiple ParseDuration bound w).1
         = CacheHandler.StatusBadRequest →
       db (CacheHandler.SetMultiple ParseDuration bound w).2 = db w
       ∧ net (CacheHandler.SetMultiple ParseDuration bound w).2 = net w)
  ∧ (∀ requests key request err,
       requests !! key = Some request →
       CacheHandler.parse_TTL ParseDuration (CacheHandler.request_TTL request) = inr err →
       CacheHandler.status
         (CacheHandler.SetMultiple ParseDuration (Some requests) w).1
         = CacheHandler.StatusBadRequest).
Proof.
  split; [|split].
  - intros key bound. unfold CacheHandler.SetItem.
    case_bool_decide as Hkey; [done|].
    destruct bound as [request|]; [|done].
    destruct (CacheHandler.parse_TTL _ _) as [ttl|err]; [|done].
    unfold bind.
    destruct (RedisCache.Set_ key _ ttl w) as [[err|] w']; simpl;
      intros Hst; by vm_compute in Hst.
  - intros bound. unfold CacheHandler.SetMultiple.
    destruct bound as [requests|]; [|done]. unfold bind.
    pose proof (SetMultiple_items_world (map_to_list requests) ∅ w) as Hw.
    destruct (CacheHandler.SetMultiple_items _ _ _ _) as [[items|badkey] w'].
    + destruct (RedisCache.SetMultiple items w') as [[err|] w'']; simpl;
        intros Hst; by vm_compute in Hst.
    + simpl in *. by subst w'.
  - intros requests key request err Hreq Hparse.
    unfold CacheHandler.SetMultiple, bind.
    destruct (SetMultiple_items_rejects (map_to_list requests) ∅ w key request err)
      as [key' Hbad]; [by apply elem_of_map_to_list|done|].
    destruct (CacheHandler.SetMultiple_items _ _ _ _) as [[items|badkey] w'];
      simpl in *; [done|reflexivity].
Qed.

End MoreHandlers.

(** * The properties on concrete runs *)

Section Runs.
#[local] Existing Instance reference_codec.



(** C9 on an item with 25 ns left, and on the same item 100 ns later. *)
Lemma RemainingTTL_is_max_0_until_witness :
  (RemainingTTL (mkCacheItem "k" VNull 100 0 100) (fresh_world 75 [])).1 = 25
  ∧ (RemainingTTL (mkCacheItem "k" VNull 100 0 100) (fresh_world 175 [])).1 = 0.
Proof.
  split.
  - exact (proj1 (RemainingTTL_is_max_0_until
                    (mkCacheItem "k" VNull 100 0 100) (fresh_world 75 []))).
  - exact (proj1 (RemainingTTL_is_max_0_until
                    (mkCacheItem "k" VNull 100 0 100) (fresh_world 175 []))).
Defined.

(** A database in which "session" holds an item that expired at instant 0
    and that the store still serves, read at instant 10. *)
Definition stale_item : CacheItem := mkCacheItem "session" (VString "v") 0 0 0.

Definition stale_entry : Entry :=
  mkEntry (codec := reference_codec) (encoded stale_item) None.

Definition stale_world (fates : list (option string)) : World :=
  mkWorld {[ "session" := stale_entry ]} 10 fates [] [].

(** C3 on [stale_world]: once with a cleanup delete that fails, once with
    one that goes through. *)
Lemma Get_expired_item_lazy_delete_witness :
  ((RedisCache.Get "session" (stale_world [None; Some "connection reset"])).1 = (None, None)
   ∧ db (RedisCache.Get "session" (stale_world [None; Some "connection reset"])).2
       = db (stale_world []))
  ∧ ((RedisCache.Get "session" (stale_world [])).1 = (None, None)
     ∧ db (RedisCache.Get "session" (stale_world [])).2 = delete "session" (db (stale_world []))).
Proof.
  split.
  - destruct (Get_expired_item_lazy_delete (codec := reference_codec)
                "session" stale_entry stale_item
                (stale_world [None; Some "connection reset"])
                eq_refl eq_refl eq_refl eq_refl) as (_ & _ & Hfails).
    destruct (Hfails "connection reset" [] eq_refl) as (_ & Hdb & Hres).
    split; [exact Hres | exact Hdb].
  - destruct (Get_expired_item_lazy_delete (codec := reference_codec)
                "session" stale_entry stale_item
                (stale_world []) eq_refl eq_refl eq_refl eq_refl) as (Hres & Hok & _).
    destruct (Hok eq_refl) as (_ & Hdb).
    split; [|exact Hdb]. exact (f_equal fst Hres).
Defined.

(** C6 on the run of [TestRedisCache_GetNonExistent], on [stale_world] and
    on a connection that is refused. *)
Lemma Get_miss_is_not_an_error_witness :
  RedisCache.Get "non_existent_key" (fresh_world 0 [])
    = ((None, None), sent (fresh_world 0 []))
  ∧ (RedisCache.Get "session" (stale_world [])).1 = (None, None)
  ∧ (RedisCache.Get "session" (stale_world [Some "connection refused"])).1
      = (None, Some (Errorf "failed to get cache item"
                       (Some (redis_error "connection refused")))).
Proof.
  split; [|split].
  - exact (proj1 (proj1 (Get_miss_is_not_an_error (codec := reference_codec)
                           "non_existent_key" (fresh_world 0 [])) eq_refl) eq_refl).
  - exact (proj1 (proj2 (proj1 (Get_miss_is_not_an_error (codec := reference_codec)
                                  "session" (stale_world [])) eq_refl))
             stale_entry stale_item eq_refl eq_refl eq_refl).
  - exact (proj2 (Get_miss_is_not_an_error (codec := reference_codec)
                    "session" (stale_world [Some "connection refused"]))
             "connection refused" [] eq_refl).
Defined.

(** C7: [Expire] on an absent key, on a key the store holds, and over a
    connection that fails. *)
Lemma Expire_missing_key_is_not_found_witness :
  (RedisCache.Expire "absent" time.Hour (fresh_world 0 [])).1
    = Some (Errorf "key does not exist: absent" None)
  ∧ (RedisCache.Expire "session" time.Hour (stale_world [])).1 = None
  ∧ (RedisCache.Expire "session" time.Hour (stale_world [Some "i/o timeout"])).1
      = Some (Errorf "failed to set expiration" (Some (redis_error "i/o timeout"))).
Proof.
  split; [|split].
  - exact (proj1 (proj1 (Expire_missing_key_is_not_found (codec := reference_codec)
                           "absent" time.Hour (fresh_world 0 [])) eq_refl eq_refl)).
  - exact (proj1 (proj2 (Expire_missing_key_is_not_found (codec := reference_codec)
                           "session" time.Hour (stale_world [])))
             eq_refl (ex_intro _ stale_entry eq_refl)).
  - exact (proj1 (proj2 (proj2 (Expire_missing_key_is_not_found (codec := reference_codec)
                                  "session" time.Hour (stale_world [Some "i/o timeout"]))))
             "i/o timeout" [] eq_refl).
Defined.




(** The run against C8 as it is stated: an item is set with a TTL of zero
    and read at the instant of its creation. *)
Lemma zero_ttl_item_is_served_at_creation :
  let w0 := fresh_world 0 [] in
  let item := (NewCacheItem "k" (VString "v") 0 w0).1 in
  let w1 := (RedisCache.Set_ "k" (VString "v") 0 w0).2 in
  0 ≤ 0
  ∧ CreatedAt item ≤ clock w1
  ∧ (IsExpired item w1).1 = false
  ∧ (RedisCache.Get "k" w1).1 = (Some item, None)
  ∧ (RedisCache.GetMultiple ["k"] w1).1.1 ≫= (.!! "k") = Some item.
Proof. vm_compute. repeat split; congruence. Qed.

(** C8 as amended, on an item created at instant 0 with TTL zero and read at
    instant 10 ([stale_world]). *)
Lemma nonpositive_ttl_item_expired_after_creation_witness :
  0 ≤ 0
  ∧ (IsExpired stale_item (stale_world [])).1 = true
  ∧ (RedisCache.Get "session" (stale_world [])).1.1 = None
  ∧ (∀ items, (RedisCache.GetMultiple ["session"] (stale_world [])).1.1 = Some items →
       items !! "session" = None).
Proof.
  split; [reflexivity|].
  destruct (nonpositive_ttl_item_expired_after_creation (codec := reference_codec)
              "session" (VString "v") 0 (fresh_world 0 [])) as (_ & Hlater);
    [reflexivity|].
  destruct (Hlater (stale_world [])) as (Hexp & Hread); [left; reflexivity|].
  split; [exact Hexp|].
  destruct (Hread "session") as (HGet & HMulti).
  { intros e. vm_compute. by intros [= <-]. }
  split; [exact HGet|]. intros items. apply HMulti.
Defined.

(** C4 on a batch of two items, one of which holds a value that does not
    serialize: with a connection that works and with one that fails. *)
Definition batch : gmap string CacheItem :=
  {[ "key1" := mkCacheItem "key1" (VString "value1") time.Hour 0 time.Hour;
     "key2" := mkCacheItem "key2" VFunc time.Hour 0 time.Hour ]}.

Lemma SetMultiple_skips_unserializable_items_witness :
  ((RedisCache.SetMultiple batch (fresh_world 0 [])).1 = None
   ∧ stored_item (RedisCache.SetMultiple batch (fresh_world 0 [])).2 "key1"
       = Some (mkCacheItem "key1" (VString "value1") time.Hour 0 time.Hour)
   ∧ db (RedisCache.SetMultiple batch (fresh_world 0 [])).2 !! "key2" = None)
  ∧ ((RedisCache.SetMultiple batch (fresh_world 0 [Some "broken pipe"])).1
       = Some (Errorf "failed to set multiple cache items"
                 (Some (redis_error "broken pipe")))
     ∧ db (RedisCache.SetMultiple batch (fresh_world 0 [Some "broken pipe"])).2 = ∅).
Proof.
  split.
  - destruct (proj1 (SetMultiple_skips_unserializable_items (codec := reference_codec)
                       batch (fresh_world 0 [])) eq_refl) as (Hres & Hdb).
    split; [exact Hres|]. unfold stored_item. rewrite (Hdb "key1"), (Hdb "key2").
    split; reflexivity.
  - exact (proj2 (SetMultiple_skips_unserializable_items (codec := reference_codec)
                    batch (fresh_world 0 [Some "broken pipe"]))
             "broken pipe" [] eq_refl).
Defined.

(** C5 on a database with a live item, an expired one and bytes that do
    not decode, read at instant 10. *)
Definition live_item : CacheItem :=
  mkCacheItem "multi1" (VString "value1") time.Hour 0 time.Hour.

Definition live_entry : Entry :=
  mkEntry (codec := reference_codec) (encoded live_item) (Some time.Hour).

Definition garbled_entry : Entry :=
  mkEntry (codec := reference_codec) (garbled "{") None.

Definition mixed_world : World :=
  mkWorld {[ "multi1" := live_entry; "session" := stale_entry; "bad" := garbled_entry ]}
    10 [] [] [].

Lemma GetMultiple_excludes_silently_witness :
  RedisCache.GetMultiple [] mixed_world = ((Some ∅, None), mixed_world)
  ∧ ∃ items,
      (RedisCache.GetMultiple ["multi1"; "session"; "bad"; "non_existent"] mixed_world).1
        = (Some items, None)
      ∧ items !! "multi1" = Some live_item
      ∧ items !! "session" = None
      ∧ items !! "bad" = None
      ∧ items !! "non_existent" = None.
Proof.
  destruct (GetMultiple_excludes_silently (codec := reference_codec)
              ["multi1"; "session"; "bad"; "non_existent"] mixed_world)
    as (Hempty & Hkeys).
  split; [exact Hempty|].
  destruct (Hkeys eq_refl) as (items & Hres & Hitems); [discriminate|].
  exists items. split; [exact Hres|].
  split; [|split; [|split]].
  - apply (proj2 (proj2 (proj2 (proj2 (Hitems "multi1")))) live_entry live_item);
      [|reflexivity..].
    apply elem_of_cons. by left.
  - exact (proj1 (proj2 (proj2 (proj2 (Hitems "session"))))
             stale_entry stale_item eq_refl eq_refl eq_refl).
  - exact (proj1 (proj2 (proj2 (Hitems "bad")))
             garbled_entry (json_error "invalid character") eq_refl eq_refl).
  - exact (proj1 (proj2 (Hitems "non_existent")) eq_refl).
Defined.

(** C10 on the bodies of [TestAPI_DeleteItem] (no "ttl" field) and of
    [TestAPI_BatchOperations] ("batch3" has no "ttl" field). *)
Definition batch_request : gmap string CacheHandler.ItemRequest :=
  {[ "batch1" := CacheHandler.mkItemRequest (VString "value1") "1h";
     "batch2" := CacheHandler.mkItemRequest (VString "value2") "30m";
     "batch3" := CacheHandler.mkItemRequest (VString "value3") "" ]}.

Lemma handlers_default_TTL_is_one_hour_witness :
  (CacheHandler.status
     (CacheHandler.SetItem sample_ParseDuration "delete_key"
        (Some (CacheHandler.mkItemRequest (VString "delete_test") ""))
        (fresh_world 7 [])).1 = CacheHandler.StatusOK
   ∧ ∃ item,
       stored_item
         (CacheHandler.SetItem sample_ParseDuration "delete_key"
            (Some (CacheHandler.mkItemRequest (VString "delete_test") ""))
            (fresh_world 7 [])).2 "delete_key" = Some item
       ∧ TTL item = 3600000000000
       ∧ ExpiresAt item = CreatedAt item + 3600000000000)
  ∧ (CacheHandler.status
       (CacheHandler.SetMultiple sample_ParseDuration (Some batch_request)
          (fresh_world 7 [])).1 = CacheHandler.StatusOK
     ∧ stored_item
         (CacheHandler.SetMultiple sample_ParseDuration (Some batch_request)
            (fresh_world 7 [])).2 "batch3"
       = Some (mkCacheItem "batch3" (VString "value3") time.Hour
                 7 (7 + 3600000000000))).
Proof.
  destruct (handlers_default_TTL_is_one_hour (codec := reference_codec)
              sample_ParseDuration) as (_ & _ & Hsingle & Hbatch).
  split.
  - split; [reflexivity|].
    assert ("delete_key" ≠ "") as Hkey by discriminate.
    destruct (Hsingle "delete_key" (CacheHandler.mkItemRequest (VString "delete_test") "")
                (fresh_world 7 []) eq_refl Hkey) as (_ & Hok).
    destruct (Hok eq_refl) as (_ & e & item & Hlook & Hdec & _ & _ & Httl & Hexp).
    exists item. unfold stored_item. rewrite Hlook, Hdec.
    split; [reflexivity|]. split; [exact Httl | exact Hexp].
  - split; [reflexivity|].
    destruct (Hbatch batch_request "batch3"
                (CacheHandler.mkItemRequest (VString "value3") "")
                (fresh_world 7 []) eq_refl eq_refl) as (_ & Hok).
    destruct (Hok eq_refl) as (items & _ & _ & _ & Hstored).
    unfold stored_item. rewrite (Hstored _ eq_refl). reflexivity.
Defined.

End Runs.

(** * The further properties on concrete runs *)

Section MoreRuns.
#[local] Existing Instance reference_codec.

(** X1 on [stale_world]: a key the store holds and one it does not. *)
Lemma Delete_is_idempotent_witness :
  (RedisCache.Delete "session" (stale_world [])).1 = None
  ∧ db (RedisCache.Delete "session" (stale_world [])).2 !! "session" = None
  ∧ (RedisCache.Delete "absent" (stale_world [])).1 = None
  ∧ db (RedisCache.Delete "absent" (stale_world [])).2 = db (stale_world []).
Proof.
  destruct (Delete_is_idempotent (codec := reference_codec) "session" (stale_world [])
              eq_refl) as (H1 & H2 & _).
  destruct (Delete_is_idempotent (codec := reference_codec) "absent" (stale_world [])
              eq_refl) as (H3 & _ & _ & H4 & _).
  exact (conj H1 (conj H2 (conj H3 (H4 eq_refl)))).
Defined.

(** X2 on [stale_world]. *)
Lemma Exists_does_not_check_the_item_witness :
  (cache.Exists "session" (stale_world [])).1 = (true, None)
  ∧ (RedisCache.Get "session" (cache.Exists "session" (stale_world [])).2).1 = (None, None)
  ∧ (cache.Exists "session"
       (RedisCache.Get "session" (cache.Exists "session" (stale_world [])).2).2).1
      = (false, None).
Proof.
  destruct (Exists_does_not_check_the_item (codec := reference_codec)
              "session" stale_entry (stale_world []) eq_refl eq_refl)
    as (H1 & _ & H3).
  destruct (H3 stale_item eq_refl eq_refl) as (H4 & H5).
  exact (conj H1 (conj H4 H5)).
Defined.

(** X3: a value that does not serialize, and a connection that fails. *)
Lemma Set_failure_stores_nothing_witness :
  (RedisCache.Set_ "k" VFunc time.Hour (stale_world [])).1
    = Some (Errorf "failed to marshal cache item"
              (Some (json_error "json: unsupported type")))
  ∧ (RedisCache.Set_ "k" (VString "v") time.Hour (stale_world [Some "i/o timeout"])).1
      = Some (Errorf "failed to set cache item" (Some (redis_error "i/o timeout")))
  ∧ db (RedisCache.Set_ "k" (VString "v") time.Hour (stale_world [Some "i/o timeout"])).2
      = db (stale_world []).
Proof.
  destruct (Set_failure_stores_nothing (codec := reference_codec)
              "k" VFunc time.Hour (stale_world [])) as (H1 & _ & _).
  destruct (Set_failure_stores_nothing (codec := reference_codec)
              "k" (VString "v") time.Hour (stale_world [Some "i/o timeout"]))
    as (_ & H2 & H3).
  split; [exact (proj1 (H1 _ eq_refl))|].
  pose proof (H2 (encoded (mkCacheItem "k" (VString "v") time.Hour 10 (10 + time.Hour)))
                "i/o timeout" [] eq_refl eq_refl) as H2'.
  split; [exact H2'|]. exact (H3 _ H2').
Defined.

(** X4 on [mixed_world], whose key "bad" holds bytes that do not decode. *)
Lemma Get_corrupt_bytes_is_an_error_witness :
  (RedisCache.Get "bad" mixed_world).1
    = (None, Some (Errorf "failed to unmarshal cache item"
                     (Some (json_error "invalid character"))))
  ∧ db (RedisCache.Get "bad" mixed_world).2 = db mixed_world.
Proof.
  destruct (Get_corrupt_bytes_is_an_error (codec := reference_codec)
              "bad" garbled_entry (json_error "invalid character") mixed_world
              eq_refl eq_refl eq_refl) as (H1 & H2 & _).
  exact (conj H1 H2).
Defined.

(** X5 on [mixed_world]. *)
Lemma DeleteMultiple_removes_every_key_witness :
  (cache.DeleteMultiple ["multi1"; "absent"; "bad"] mixed_world).1 = None
  ∧ db (cache.DeleteMultiple ["multi1"; "absent"; "bad"] mixed_world).2 !! "multi1" = None
  ∧ db (cache.DeleteMultiple ["multi1"; "absent"; "bad"] mixed_world).2 !! "session"
      = Some stale_entry.
Proof.
  destruct (DeleteMultiple_removes_every_key (codec := reference_codec)
              ["multi1"; "absent"; "bad"] mixed_world) as (_ & Hok & _).
  destruct (Hok eq_refl) as (H1 & H2).
  exact (conj H1 (conj (H2 "multi1") (H2 "session"))).
Defined.

(** X6 on [mixed_world]. *)
Lemma Clear_empties_the_store_witness :
  (cache.Clear mixed_world).1 = None
  ∧ (cache.Size (cache.Clear mixed_world).2).1 = (0, None)
  ∧ (RedisCache.Get "multi1" (cache.Clear mixed_world).2).1 = (None, None).
Proof.
  destruct (proj1 (Clear_empties_the_store (codec := reference_codec) mixed_world)
              eq_refl) as (H1 & _ & H3 & H4).
  exact (conj H1 (conj H3 (H4 "multi1"))).
Defined.



(** A printer of durations for the runs: the count of nanoseconds. *)
Definition sample_Duration_String (d : Duration) : string := pretty d +:+ "ns".

(** X9 on the run of [TestAPI_ExpirationBehavior]: a TTL of 100 ms, read
    at once and 150 ms later. *)
Lemma SetItem_then_GetItem_witness :
  (handlers.GetItem sample_Duration_String "expiring_key"
     (Sleep 0
        (CacheHandler.SetItem sample_ParseDuration "expiring_key"
           (Some (CacheHandler.mkItemRequest (VString "expiring_value") "100ms"))
           (fresh_world 0 [])).2).2).1
    = handlers.mkAnswer handlers.StatusOK
        (handlers.H_item "expiring_key" (VString "expiring_value") 0 100000000
           "100000000ns")
  ∧ (handlers.GetItem sample_Duration_String "expiring_key"
       (Sleep (150 * time.Millisecond)
          (CacheHandler.SetItem sample_ParseDuration "expiring_key"
             (Some (CacheHandler.mkItemRequest (VString "expiring_value") "100ms"))
             (fresh_world 0 [])).2).2).1
      = handlers.mkAnswer handlers.StatusNotFound (handlers.H_error "key not found").
Proof.
  assert ("expiring_key" ≠ "") as Hkey by discriminate.
  split.
  - refine (proj1 (proj2 (SetItem_then_GetItem (codec := reference_codec)
              sample_ParseDuration sample_Duration_String
              "expiring_key"
              (CacheHandler.mkItemRequest (VString "expiring_value") "100ms")
              (100 * time.Millisecond) 0
              (encoded (mkCacheItem "expiring_key" (VString "expiring_value")
                          (100 * time.Millisecond) 0 (100 * time.Millisecond)))
              (fresh_world 0 []) Hkey eq_refl eq_refl _ _ eq_refl eq_refl)) _);
      by vm_compute.
  - refine (proj2 (proj2 (SetItem_then_GetItem (codec := reference_codec)
              sample_ParseDuration sample_Duration_String
              "expiring_key"
              (CacheHandler.mkItemRequest (VString "expiring_value") "100ms")
              (100 * time.Millisecond) (150 * time.Millisecond)
              (encoded (mkCacheItem "expiring_key" (VString "expiring_value")
                          (100 * time.Millisecond) 0 (100 * time.Millisecond)))
              (fresh_world 0 []) Hkey eq_refl eq_refl _ _ eq_refl eq_refl)) _);
      by vm_compute.
Defined.

(** X10 on [mixed_world]: an absent key, an expired item, bytes that do not
    decode. *)
Lemma GetItem_status_witness :
  (handlers.GetItem sample_Duration_String "non_existent" mixed_world).1
    = handlers.mkAnswer handlers.StatusNotFound (handlers.H_error "key not found")
  ∧ (handlers.GetItem sample_Duration_String "session" mixed_world).1
      = handlers.mkAnswer handlers.StatusNotFound (handlers.H_error "key not found")
  ∧ (handlers.GetItem sample_Duration_String "bad" mixed_world).1
      = handlers.mkAnswer handlers.StatusInternalServerError
          (handlers.H_error "failed to get cache item").
Proof.
  assert ("non_existent" ≠ "") as Hk1 by discriminate.
  assert ("session" ≠ "") as Hk2 by discriminate.
  assert ("bad" ≠ "") as Hk3 by discriminate.
  split; [|split].
  - exact (proj1 (proj2 (GetItem_status (codec := reference_codec)
                           sample_Duration_String "non_existent" mixed_world) Hk1)
             eq_refl (or_introl eq_refl)).
  - exact (proj1 (proj2 (GetItem_status (codec := reference_codec)
                           sample_Duration_String "session" mixed_world) Hk2)
             eq_refl (or_intror eq_refl)).
  - refine (proj1 (proj2 (proj2 (GetItem_status (codec := reference_codec)
                                   sample_Duration_String "bad" mixed_world) Hk3))
              eq_refl _ (ex_intro _ garbled_entry eq_refl)).
    intros e He. vm_compute in He. injection He as <-.
    by exists (json_error "invalid character").
Defined.

(** X11 on an empty store. *)
Lemma SetExpiration_missing_key_answers_500_witness :
  (handlers.SetExpiration sample_ParseDuration "ttl_key" (Some "30m") (fresh_world 0 [])).1
    = handlers.mkAnswer handlers.StatusInternalServerError
        (handlers.H_error "failed to set expiration")
  ∧ (handlers.SetExpiration sample_ParseDuration "session" (Some "30m") (stale_world [])).1
      = handlers.mkAnswer handlers.StatusOK
          (handlers.H_message "expiration set successfully").
Proof.
  assert ("ttl_key" ≠ "") as Hk1 by discriminate.
  assert ("session" ≠ "") as Hk2 by discriminate.
  split.
  - exact (proj1 (SetExpiration_missing_key_answers_500 (codec := reference_codec)
                    sample_ParseDuration "ttl_key" "30m" (30 * time.Minute)
                    (fresh_world 0 []) Hk1 eq_refl) eq_refl eq_refl).
  - exact (proj2 (proj2 (SetExpiration_missing_key_answers_500 (codec := reference_codec)
                           sample_ParseDuration "session" "30m" (30 * time.Minute)
                           (stale_world []) Hk2 eq_refl))
             eq_refl (ex_intro _ stale_entry eq_refl)).
Defined.

(** X12 on a batch whose third item has a TTL that does not parse. *)
Definition bad_batch_request : gmap string CacheHandler.ItemRequest :=
  {[ "batch1" := CacheHandler.mkItemRequest (VString "value1") "1h";
     "batch2" := CacheHandler.mkItemRequest (VString "value2") "30m";
     "batch3" := CacheHandler.mkItemRequest (VString "value3") "soon" ]}.

Lemma rejected_store_requests_touch_nothing_witness :
  CacheHandler.status
    (CacheHandler.SetMultiple sample_ParseDuration (Some bad_batch_request)
       (fresh_world 0 [])).1 = CacheHandler.StatusBadRequest
  ∧ db (CacheHandler.SetMultiple sample_ParseDuration (Some bad_batch_request)
          (fresh_world 0 [])).2 = ∅
  ∧ db (CacheHandler.SetItem sample_ParseDuration "k"
          (Some (CacheHandler.mkItemRequest (VString "v") "soon"))
          (fresh_world 0 [])).2 = ∅.
Proof.
  destruct (rejected_store_requests_touch_nothing (codec := reference_codec)
              sample_ParseDuration (fresh_world 0 [])) as (Hsingle & Hbatch & Hbad).
  pose proof (Hbad bad_batch_request "batch3"
                (CacheHandler.mkItemRequest (VString "value3") "soon")
                (time_error "time: invalid duration") eq_refl eq_refl) as Hst.
  split; [exact Hst|]. split.
  - exact (proj1 (Hbatch (Some bad_batch_request) Hst)).
  - exact (proj1 (Hsingle "k" (Some (CacheHandler.mkItemRequest (VString "v") "soon"))
                    eq_refl)).
Defined.

End MoreRuns.
